(** * UrlService: the mapping lifecycle manager of the URL shortener

    Shallow embedding of
    [Frontend Test Submission/src/services/urlService.ts].

    Modelling choices, all taken from the source:
    - [localStorage] under the single key ['url_mappings'] is the list
      of records last written by [saveMappings]; reads and writes of
      the store are assumed to succeed.
    - every reading of the clock ([new Date()], [Date.now()]) is an
      explicit argument, a number of milliseconds since the epoch.
    - [Math.random] is an oracle: [randomIndex k] is the value of
      [Math.floor(Math.random() * chars.length)] at the k-th call.
    - [new URL(url)] is the platform's parser, a parameter [url_parses].
    - [validityMinutes] ranges over the integers (what the form's
      [parseInt] hands over); [accessCount] is an integer held in a
      JavaScript number, and [numberSucc] is [x + 1] on such a number.
    - [Logger.Log] only reports; it never changes a result, and the
      branch an operation takes is visible in its outcome. *)

From Stdlib Require Import ZArith List String Ascii Bool Lia.
Import ListNotations.

Module UrlService.

Local Open Scope Z_scope.

(** ** Dates *)

(** A JavaScript [Date] holds a time value or NaN (an invalid date). *)
Inductive Date : Type :=
| ValidDate (tv : Z)
| InvalidDate.

(** ECMAScript's TimeClip bound: 8.64e15 ms on either side of the epoch. *)
Definition maxTimeValue : Z := 8640000000000000.

(** [new Date(tv)] for a number [tv]. *)
Definition newDate (tv : Z) : Date :=
  if Z.abs tv <=? maxTimeValue then ValidDate tv else InvalidDate.

(** What [JSON.stringify] leaves of a [Date]: its ISO string, or [null]
    for an invalid date ([Date.prototype.toJSON]). *)
Inductive JsonDate : Type :=
| IsoString (tv : Z)
| JsonNull.

Definition toJSON (d : Date) : JsonDate :=
  match d with
  | ValidDate tv => IsoString tv
  | InvalidDate => JsonNull
  end.

(** [new Date(x)] for a value [x] read back with [JSON.parse]:
    an ISO string is parsed, [null] converts to the number 0. *)
Definition parseDate (j : JsonDate) : Date :=
  match j with
  | IsoString tv => newDate tv
  | JsonNull => ValidDate 0
  end.

(** [d > now] and [d <= now] for a date [d] and the current time;
    a comparison with NaN is false. *)
Definition date_gt (d : Date) (now : Z) : bool :=
  match d with
  | ValidDate tv => now <? tv
  | InvalidDate => false
  end.

Definition date_le (d : Date) (now : Z) : bool :=
  match d with
  | ValidDate tv => tv <=? now
  | InvalidDate => false
  end.

(** ** Records *)

Module ShortenUrlRequest.
Record t : Type := make {
  originalUrl : string;
  customShortcode : option string;
  validityMinutes : option Z
}.
End ShortenUrlRequest.

Module ShortenUrlResponse.
Record t : Type := make {
  shortUrl : string;
  shortcode : string;
  originalUrl : string;
  expiresAt : Date;
  createdAt : Date
}.
End ShortenUrlResponse.

(** A stored record, as [JSON.parse] returns it. *)
Record UrlMapping : Type := mkUrlMapping {
  shortcode : string;
  originalUrl : string;
  expiresAt : JsonDate;
  createdAt : JsonDate;
  accessCount : Z
}.

(** The three messages [shortenUrl] throws. *)
Inductive Error : Type :=
| InvalidUrlError          (* 'Invalid URL provided' *)
| InvalidCodeFormatError   (* 'Custom shortcode must be 3-10 alphanumeric characters' *)
| CodeTakenError.          (* 'Custom shortcode already exists' *)

(** How a call ends; [Diverges] is the retry loop running out of fuel. *)
Inductive Outcome (A : Type) : Type :=
| Returned (a : A)
| Thrown (e : Error)
| Diverges.
Arguments Returned {A} a.
Arguments Thrown {A} e.
Arguments Diverges {A}.

(** The three exits of [resolveShortcode], told apart by their log line. *)
Inductive Resolution : Type :=
| NotFound                 (* WARN 'Shortcode not found' *)
| Expired                  (* WARN 'Shortcode expired' *)
| Resolved (url : string).

(** The value the promise resolves to: [null] on both misses. *)
Definition returned (r : Resolution) : option string :=
  match r with
  | Resolved url => Some url
  | NotFound | Expired => None
  end.

(** The store and the number of [Math.random] calls made so far. *)
Record World : Type := mkWorld {
  storage : list UrlMapping;
  randomCalls : nat
}.

Definition init : World := {| storage := []; randomCalls := 0 |}.

(** ** Validators *)

Definition chars : string :=
  "abcdefghijklmnopqrstuvwxyzABCDEFGHIJKLMNOPQRSTUVWXYZ0123456789".

(** [s.charAt(i)]: the empty string out of range. *)
Definition charAt (s : string) (i : nat) : string :=
  match String.get i s with
  | Some c => String c EmptyString
  | None => EmptyString
  end.

(** The character class [[a-zA-Z0-9]]. *)
Definition isAlnum (c : ascii) : bool :=
  let n := nat_of_ascii c in
  ((97 <=? n) && (n <=? 122) || (65 <=? n) && (n <=? 90)
   || (48 <=? n) && (n <=? 57))%nat.

(** [/^[a-zA-Z0-9]{3,10}$/.test(shortcode)] *)
Definition isValidShortcode (shortcode : string) : bool :=
  ((3 <=? String.length shortcode) && (String.length shortcode <=? 10))%nat
  && forallb isAlnum (list_ascii_of_string shortcode).

(** A string in a condition: the empty string is falsy. *)
Definition truthy (s : option string) : option string :=
  match s with
  | Some EmptyString => None
  | Some s' => Some s'
  | None => None
  end.

(** [validityMinutes || 30]: [undefined] and 0 are falsy. *)
Definition orDefault (v : option Z) (d : Z) : Z :=
  match v with
  | Some 0 => d
  | Some v' => v'
  | None => d
  end.

Definition hasCode (code : string) (m : UrlMapping) : bool :=
  String.eqb (shortcode m) code.

(** [new Date(mapping.expiresAt) > now] *)
Definition live (now : Z) (m : UrlMapping) : bool :=
  date_gt (parseDate (expiresAt m)) now.

(** ** The store *)

(** [cleanExpiredMappings]: the filtered list is saved only when it is
    shorter than the stored one. *)
Definition cleanExpiredMappings (now : Z) (mappings : list UrlMapping)
  : list UrlMapping :=
  let validMappings := filter (live now) mappings in
  if Nat.eqb (List.length validMappings) (List.length mappings)
  then mappings
  else validMappings.

(** [mappings.find(p)] hands out the first matching object itself, so
    a later assignment to one of its fields is seen through the array. *)
Fixpoint updateFirst (p : UrlMapping -> bool) (f : UrlMapping -> UrlMapping)
  (l : list UrlMapping) : list UrlMapping :=
  match l with
  | [] => []
  | m :: rest => if p m then f m :: rest else m :: updateFirst p f rest
  end.

(** 2^53 and 2^54: up to 2^53 every integer is a JavaScript number,
    from there to 2^54 only the even ones are. *)
Definition twoTo53 : Z := 9007199254740992.
Definition twoTo54 : Z := 18014398509481984.

(** [x + 1] on a JavaScript number that holds the integer [x]: the sum
    is exact when it is within 2^53 of zero; beyond, it is rounded to
    the nearest number, a tie going to the even significand, so that
    2^53 + 1 is 2^53 and 2^53 + 2 + 1 is 2^53 + 4. *)
Definition numberSucc (x : Z) : Z :=
  if (- twoTo53 <=? x) && (x <? twoTo53) then x + 1
  else if (Z.abs x <? twoTo54) && Z.odd (Z.abs x / 2) then x + 2
  else x.

(** [mapping.accessCount++] *)
Definition increment (m : UrlMapping) : UrlMapping :=
  {| shortcode := shortcode m;
     originalUrl := originalUrl m;
     expiresAt := expiresAt m;
     createdAt := createdAt m;
     accessCount := numberSucc (accessCount m) |}.

Section Service.

(** [new URL(url)] does not throw. *)
Variable url_parses : string -> bool.
(** [window.location.origin] *)
Variable BASE_URL : string.
(** The k-th value of [Math.floor(Math.random() * chars.length)]. *)
Variable randomIndex : nat -> nat.

Definition isValidUrl (url : string) : bool := url_parses url.

(** The body of [generateShortcode]'s loop, [n] rounds from call [k]. *)
Fixpoint generateLoop (n k : nat) (result : string) : string :=
  match n with
  | O => result
  | S n' => generateLoop n' (S k) (result ++ charAt chars (randomIndex k))
  end.

Definition generateShortcode (k : nat) : string * nat :=
  (generateLoop 6 k EmptyString, (k + 6)%nat).

(** [shortcode = generateShortcode(); while (mappings.some(...)) ...] *)
Fixpoint generateFresh (fuel : nat) (mappings : list UrlMapping) (k : nat)
  : option (string * nat) :=
  match fuel with
  | O => None
  | S fuel' =>
      let (code, k') := generateShortcode k in
      if existsb (hasCode code) mappings
      then generateFresh fuel' mappings k'
      else Some (code, k')
  end.

(** Lines 118-130 of [shortenUrl]: the record that is pushed, in the
    form [JSON.stringify] gives it in the store. *)
Definition newMapping (tNow tCreated : Z) (request : ShortenUrlRequest.t)
  (code : string) : UrlMapping :=
  let validityMinutes :=
    orDefault (ShortenUrlRequest.validityMinutes request) 30 in
  let expires := newDate (tNow + validityMinutes * 60 * 1000) in
  let created := ValidDate tCreated in
  {| shortcode := code;
     originalUrl := ShortenUrlRequest.originalUrl request;
     expiresAt := toJSON expires;
     createdAt := toJSON created;
     accessCount := 0 |}.

(** Lines 118-145 of [shortenUrl]: build, append, save, answer. *)
Definition store (tNow tCreated : Z) (request : ShortenUrlRequest.t)
  (code : string) (mappings : list UrlMapping) (k : nat)
  : Outcome ShortenUrlResponse.t * World :=
  let validityMinutes :=
    orDefault (ShortenUrlRequest.validityMinutes request) 30 in
  let expires := newDate (tNow + validityMinutes * 60 * 1000) in
  let created := ValidDate tCreated in
  (Returned
     {| ShortenUrlResponse.shortUrl := BASE_URL ++ "/" ++ code;
        ShortenUrlResponse.shortcode := code;
        ShortenUrlResponse.originalUrl := ShortenUrlRequest.originalUrl request;
        ShortenUrlResponse.expiresAt := expires;
        ShortenUrlResponse.createdAt := created |},
   {| storage := mappings ++ [newMapping tNow tCreated request code];
      randomCalls := k |}).

(** [shortenUrl]; [tSweep], [tNow], [tCreated] are its three readings of
    the clock, in the order the code takes them. *)
Definition shortenUrl (fuel : nat) (tSweep tNow tCreated : Z)
  (request : ShortenUrlRequest.t) (w : World)
  : Outcome ShortenUrlResponse.t * World :=
  if negb (isValidUrl (ShortenUrlRequest.originalUrl request))
  then (Thrown InvalidUrlError, w)
  else
    let mappings := cleanExpiredMappings tSweep (storage w) in
    let w1 := {| storage := mappings; randomCalls := randomCalls w |} in
    match truthy (ShortenUrlRequest.customShortcode request) with
    | Some code =>
        if negb (isValidShortcode code)
        then (Thrown InvalidCodeFormatError, w1)
        else if existsb (hasCode code) mappings
        then (Thrown CodeTakenError, w1)
        else store tNow tCreated request code mappings (randomCalls w)
    | None =>
        match generateFresh fuel mappings (randomCalls w) with
        | Some (code, k) => store tNow tCreated request code mappings k
        | None => (Diverges, w1)
        end
    end.

(** [resolveShortcode]; [tSweep] is the sweep's reading of the clock and
    [tCheck] the one of the explicit expiry check. *)
Definition resolveShortcode (tSweep tCheck : Z) (code : string) (w : World)
  : Resolution * World :=
  let mappings := cleanExpiredMappings tSweep (storage w) in
  let w1 := {| storage := mappings; randomCalls := randomCalls w |} in
  match find (hasCode code) mappings with
  | None => (NotFound, w1)
  | Some mapping =>
      if date_le (parseDate (expiresAt mapping)) tCheck
      then (Expired, w1)
      else (Resolved (originalUrl mapping),
            {| storage := updateFirst (hasCode code) increment mappings;
               randomCalls := randomCalls w |})
  end.

Definition getAllMappings (now : Z) (w : World) : list UrlMapping * World :=
  let mappings := cleanExpiredMappings now (storage w) in
  (mappings, {| storage := mappings; randomCalls := randomCalls w |}).

Definition deleteMappingByShortcode (code : string) (w : World)
  : bool * World :=
  let mappings := storage w in
  let initialLength := List.length mappings in
  let filteredMappings := filter (fun m => negb (hasCode code m)) mappings in
  if Nat.eqb (List.length filteredMappings) initialLength
  then (false, w)
  else (true, {| storage := filteredMappings; randomCalls := randomCalls w |}).

(** ** Sequences of calls *)

Inductive Op : Type :=
| OpCreate (fuel : nat) (tSweep tNow tCreated : Z)
    (request : ShortenUrlRequest.t)
| OpResolve (tSweep tCheck : Z) (code : string)
| OpList (now : Z)
| OpDelete (code : string).

Definition run (op : Op) (w : World) : World :=
  match op with
  | OpCreate fuel tSweep tNow tCreated request =>
      snd (shortenUrl fuel tSweep tNow tCreated request w)
  | OpResolve tSweep tCheck code => snd (resolveShortcode tSweep tCheck code w)
  | OpList now => snd (getAllMappings now w)
  | OpDelete code => snd (deleteMappingByShortcode code w)
  end.

Inductive reachable : World -> Prop :=
| reachable_init : reachable init
| reachable_run op w : reachable w -> reachable (run op w).

End Service.

(** ** Properties of states *)

(** The live records that carry a given shortcode. *)
Definition liveWithCode (now : Z) (code : string) (st : list UrlMapping)
  : list UrlMapping :=
  filter (fun m => live now m && hasCode code m) st.

(** At most one live mapping per shortcode, at every time. *)
Definition atMostOneLive (st : list UrlMapping) : Prop :=
  forall now code, (List.length (liveWithCode now code st) <= 1)%nat.

(** Two records that differ at most in [accessCount]. *)
Definition sameIdentity (m m' : UrlMapping) : Prop :=
  shortcode m' = shortcode m /\ originalUrl m' = originalUrl m
  /\ createdAt m' = createdAt m /\ expiresAt m' = expiresAt m.

(** [persists st st']: [st'] is [st] with some records removed and the
    others kept in their order, each with the same four other fields
    and a count that is no smaller; nothing is added. *)
Inductive persists : list UrlMapping -> list UrlMapping -> Prop :=
| persists_nil : persists [] []
| persists_drop m st st' :
    persists st st' -> persists (m :: st) st'
| persists_keep m m' st st' :
    sameIdentity m m' -> accessCount m <= accessCount m' ->
    persists st st' -> persists (m :: st) (m' :: st').

(** The three shapes of the store after a call of [shortenUrl]. *)
Inductive afterCreate (tSweep tNow tCreated : Z)
  (request : ShortenUrlRequest.t) (st : list UrlMapping)
  : list UrlMapping -> Prop :=
| afterCreate_untouched : afterCreate tSweep tNow tCreated request st st
| afterCreate_swept :
    afterCreate tSweep tNow tCreated request st (filter (live tSweep) st)
| afterCreate_stored code :
    existsb (hasCode code) (filter (live tSweep) st) = false ->
    afterCreate tSweep tNow tCreated request st
      (filter (live tSweep) st ++ [newMapping tNow tCreated request code]).

(** The j-th code the retry loop draws when it starts at call [k]. *)
Definition attempt (randomIndex : nat -> nat) (k j : nat) : string :=
  fst (generateShortcode randomIndex (k + 6 * j)).

(** One of the first [fuel] draws is a code no stored record carries. *)
Definition freshWithin (randomIndex : nat -> nat) (fuel : nat)
  (mappings : list UrlMapping) (k : nat) : Prop :=
  exists j, (j < fuel)%nat
    /\ existsb (hasCode (attempt randomIndex k j)) mappings = false.

(** ** The callers: UrlShortener.tsx and RedirectHandler.tsx *)

(** [error.message] of the three errors. *)
Definition message (e : Error) : string :=
  match e with
  | InvalidUrlError => "Invalid URL provided"
  | InvalidCodeFormatError =>
      "Custom shortcode must be 3-10 alphanumeric characters"
  | CodeTakenError => "Custom shortcode already exists"
  end.

(** [isExpired] of the list view: [new Date(expiresAt) <= new Date()]. *)
Definition isExpired (expires : JsonDate) (now : Z) : bool :=
  date_le (parseDate expires) now.

(** The [status] of the redirect view. *)
Module Status.
Inductive t : Type := loading | redirecting | error | expired.
End Status.

(** What [handleRedirect] leaves: the view's state and the address the
    timer assigns to [window.location.href], if any. *)
Module RedirectView.
Record t : Type := make {
  status : Status.t;
  errorMessage : string;
  href : option string
}.
End RedirectView.

(** [handleRedirect] for the route parameter [shortcode]. *)
Definition handleRedirect (tSweep tCheck : Z) (shortcode : option string)
  (w : World) : RedirectView.t * World :=
  match truthy shortcode with
  | None =>
      (RedirectView.make Status.error "No shortcode provided" None, w)
  | Some code =>
      let (resolution, w') := resolveShortcode tSweep tCheck code w in
      match truthy (returned resolution) with
      | None =>
          (RedirectView.make Status.expired
             "This short link has expired or does not exist" None, w')
      | Some url =>
          (RedirectView.make Status.redirecting EmptyString (Some url), w')
      end
  end.

(** The state of the form and list view. *)
Module UrlShortener.
Record t : Type := make {
  originalUrl : string;
  customShortcode : string;
  validityMinutes : Z;
  isLoading : bool;
  error : string;
  success : string;
  shortenedUrls : list UrlMapping
}.
End UrlShortener.

(** [loadExistingUrls] *)
Definition loadExistingUrls (now : Z) (view : UrlShortener.t) (w : World)
  : UrlShortener.t * World :=
  let (mappings, w') := getAllMappings now w in
  (UrlShortener.make
     (UrlShortener.originalUrl view) (UrlShortener.customShortcode view)
     (UrlShortener.validityMinutes view) (UrlShortener.isLoading view)
     (UrlShortener.error view) (UrlShortener.success view) mappings,
   w').

(** [handleDelete] *)
Definition handleDelete (tList : Z) (code : string) (view : UrlShortener.t)
  (w : World) : UrlShortener.t * World :=
  loadExistingUrls tList view (snd (deleteMappingByShortcode code w)).

(** Resolves of one code in a row, each with its own two readings of
    the clock: what they returned, in order, and the world they leave. *)
Fixpoint resolveTimes (readings : list (Z * Z)) (code : string) (w : World)
  : list Resolution * World :=
  match readings with
  | [] => ([], w)
  | (tSweep, tCheck) :: rest =>
      let (resolution, w1) := resolveShortcode tSweep tCheck code w in
      let (resolutions, w2) := resolveTimes rest code w1 in
      (resolution :: resolutions, w2)
  end.

Section Callers.

Variable url_parses : string -> bool.
Variable BASE_URL : string.
Variable randomIndex : nat -> nat.

(** The request [handleSubmit] builds from the fields of the form. *)
Definition formRequest (view : UrlShortener.t) : ShortenUrlRequest.t :=
  {| ShortenUrlRequest.originalUrl := UrlShortener.originalUrl view;
     ShortenUrlRequest.customShortcode :=
       truthy (Some (UrlShortener.customShortcode view));
     ShortenUrlRequest.validityMinutes :=
       Some (UrlShortener.validityMinutes view) |}.

(** [handleSubmit]: the view when the handler has finished, [None] when
    it never does; [tList] is the clock of the reload of the list. *)
Definition handleSubmit (fuel : nat) (tSweep tNow tCreated tList : Z)
  (view : UrlShortener.t) (w : World) : option UrlShortener.t * World :=
  match shortenUrl url_parses BASE_URL randomIndex fuel
          tSweep tNow tCreated (formRequest view) w with
  | (Returned response, w1) =>
      let cleared :=
        UrlShortener.make EmptyString EmptyString 30 true EmptyString
          ("URL shortened successfully! Short URL: "
           ++ ShortenUrlResponse.shortUrl response)
          (UrlShortener.shortenedUrls view) in
      let (reloaded, w2) := loadExistingUrls tList cleared w1 in
      (Some
         (UrlShortener.make
            (UrlShortener.originalUrl reloaded)
            (UrlShortener.customShortcode reloaded)
            (UrlShortener.validityMinutes reloaded) false
            (UrlShortener.error reloaded) (UrlShortener.success reloaded)
            (UrlShortener.shortenedUrls reloaded)),
       w2)
  | (Thrown e, w1) =>
      (Some
         (UrlShortener.make
            (UrlShortener.originalUrl view)
            (UrlShortener.customShortcode view)
            (UrlShortener.validityMinutes view) false
            (message e) EmptyString (UrlShortener.shortenedUrls view)),
       w1)
  | (Diverges, w1) => (None, w1)
  end.

(** The constraints of the data model on one stored record. *)
Definition wellFormed (m : UrlMapping) : Prop :=
  isValidShortcode (shortcode m) = true
  /\ url_parses (originalUrl m) = true
  /\ 0 <= accessCount m
  /\ exists tv, createdAt m = IsoString tv.

End Callers.

(** ** A concrete environment for the examples *)

(** A parser that accepts exactly the strings with a colon after a
    first letter. *)
Definition demo_parses (s : string) : bool :=
  match s with
  | String c rest =>
      isAlnum c && existsb (Ascii.eqb ":") (list_ascii_of_string rest)
  | EmptyString => false
  end.

Definition demo_origin : string := "http://localhost:3000".

(** The draws 0, 1, 2, ... *)
Definition demo_random (k : nat) : nat := k.

(** A day in November 2026, in milliseconds since the epoch. *)
Definition demo_now : Z := 1793577600000.

Definition demo_url : string := "https://example.com".

Definition demo_request (custom : option string) (validity : option Z)
  : ShortenUrlRequest.t :=
  ShortenUrlRequest.make demo_url custom validity.

(** A create on the empty store, with one try for a generated code. *)
Definition demo_create (custom : option string) (validity : option Z)
  : Outcome ShortenUrlResponse.t * World :=
  shortenUrl demo_parses demo_origin demo_random 1
    demo_now demo_now demo_now (demo_request custom validity) init.

(** A store with an expired record of "abc", a live record of "xyz" and
    a live record of "abc". *)
Definition demo_record (code : string) (expires : Z) : UrlMapping :=
  {| shortcode := code;
     originalUrl := demo_url;
     expiresAt := IsoString expires;
     createdAt := IsoString (demo_now - 3600000);
     accessCount := 0 |}.

Definition demo_world : World :=
  {| storage := [demo_record "abc" (demo_now - 1);
                 demo_record "xyz" (demo_now + 60000);
                 demo_record "abc" (demo_now + 60000)];
     randomCalls := 0 |}.

(** Draws that stay below the 62 characters of [chars]. *)
Definition demo_random62 (k : nat) : nat := (7 * k + 3) mod 62.

Definition demo_view : UrlShortener.t :=
  UrlShortener.make demo_url EmptyString 45 false EmptyString EmptyString [].

(** A store of two live records with different shortcodes. *)
Definition demo_pair : World :=
  {| storage := [demo_record "xyz" (demo_now + 60000);
                 demo_record "abc" (demo_now + 60000)];
     randomCalls := 0 |}.

(** A store with an expired record and two live ones, all with
    different shortcodes, and a store whose one record has been
    resolved 2^53 times. *)
Definition demo_mixed : World :=
  {| storage := [demo_record "old" (demo_now - 1);
                 demo_record "xyz" (demo_now + 60000);
                 demo_record "abc" (demo_now + 60000)];
     randomCalls := 0 |}.

Definition demo_worn : UrlMapping :=
  {| shortcode := "abc";
     originalUrl := demo_url;
     expiresAt := IsoString (demo_now + 60000);
     createdAt := IsoString (demo_now - 3600000);
     accessCount := twoTo53 |}.

Example generateShortcode_demo :
  generateShortcode demo_random 0 = ("abcdef"%string, 6%nat).
Proof. reflexivity. Qed.

Example isValidShortcode_demo :
  isValidShortcode "abc" = true /\ isValidShortcode "ab" = false
  /\ isValidShortcode "abcdefghijk" = false
  /\ isValidShortcode "ab-c" = false /\ isValidShortcode "" = false.
Proof. repeat split; reflexivity. Qed.

(** ** Lists *)

Lemma filter_same_length {A} (p : A -> bool) (l : list A) :
  List.length (filter p l) = List.length l -> filter p l = l.
Proof.
  induction l as [|a l IH]; simpl; intros H; [reflexivity|].
  destruct (p a); simpl in H.
  - f_equal. apply IH. lia.
  - pose proof (filter_length_le p l). lia.
Qed.

Lemma filter_idem {A} (p : A -> bool) (l : list A) :
  filter p (filter p l) = filter p l.
Proof.
  induction l as [|a l IH]; simpl; [reflexivity|].
  destruct (p a) eqn:E; simpl; [rewrite E, IH|]; auto.
Qed.

Lemma filter_filter_length {A} (p q : A -> bool) (l : list A) :
  (List.length (filter p (filter q l)) <= List.length (filter p l))%nat.
Proof.
  induction l as [|a l IH]; simpl; [lia|].
  destruct (q a); simpl; destruct (p a); simpl; lia.
Qed.

Lemma filter_none {A} (p : A -> bool) (l : list A) :
  (forall a, In a l -> p a = false) -> filter p l = [].
Proof.
  induction l as [|a l IH]; simpl; intros H; [reflexivity|].
  rewrite (H a (or_introl eq_refl)). apply IH. intros b Hb. apply H. now right.
Qed.

Lemma filter_all {A} (p : A -> bool) (l : list A) :
  (forall a, In a l -> p a = true) -> filter p l = l.
Proof.
  induction l as [|a l IH]; simpl; intros H; [reflexivity|].
  rewrite (H a (or_introl eq_refl)). f_equal. apply IH.
  intros b Hb. apply H. now right.
Qed.

Lemma existsb_false_iff {A} (p : A -> bool) (l : list A) :
  existsb p l = false <-> forall a, In a l -> p a = false.
Proof.
  split.
  - intros H a Ha. destruct (p a) eqn:E; [|reflexivity].
    rewrite <- H. symmetry. apply existsb_exists. eauto.
  - intros H. destruct (existsb p l) eqn:E; [|reflexivity].
    apply existsb_exists in E. destruct E as (a & Ha & Hp).
    rewrite (H a Ha) in Hp. discriminate.
Qed.

Lemma find_app_last {A} (p : A -> bool) (l : list A) (a : A) :
  existsb p l = false -> p a = true -> find p (l ++ [a]) = Some a.
Proof.
  induction l as [|b l IH]; simpl; intros H Ha.
  - now rewrite Ha.
  - apply orb_false_iff in H. destruct H as [Hb Hl]. rewrite Hb. auto.
Qed.

Lemma find_none_existsb {A} (p : A -> bool) (l : list A) :
  existsb p l = false -> find p l = None.
Proof.
  induction l as [|b l IH]; simpl; intros H; [reflexivity|].
  apply orb_false_iff in H. destruct H as [Hb Hl]. rewrite Hb. auto.
Qed.

Lemma hasCode_true code m : hasCode code m = true <-> shortcode m = code.
Proof. unfold hasCode. apply String.eqb_eq. Qed.

Lemma hasCode_false code m : hasCode code m = false <-> shortcode m <> code.
Proof. unfold hasCode. apply String.eqb_neq. Qed.

(** ** The sweep *)

Lemma cleanExpiredMappings_filter now st :
  cleanExpiredMappings now st = filter (live now) st.
Proof.
  unfold cleanExpiredMappings.
  destruct (Nat.eqb _ _) eqn:E; [|reflexivity].
  apply Nat.eqb_eq in E. symmetry. now apply filter_same_length.
Qed.

Lemma cleanExpiredMappings_idem now st :
  cleanExpiredMappings now (cleanExpiredMappings now st)
  = cleanExpiredMappings now st.
Proof. rewrite !cleanExpiredMappings_filter. apply filter_idem. Qed.

Lemma cleanExpiredMappings_live now st m :
  In m (cleanExpiredMappings now st) <-> In m st /\ live now m = true.
Proof. rewrite cleanExpiredMappings_filter. apply filter_In. Qed.

Lemma date_gt_not_le d now : date_gt d now = true -> date_le d now = false.
Proof.
  destruct d as [tv|]; simpl; [|discriminate].
  intros H. apply Z.ltb_lt in H. apply Z.leb_gt. exact H.
Qed.

(** ** list and delete *)

(** C7: the sweep is idempotent: at a fixed current time a second
    list() right after the first returns the same sequence of
    mappings and leaves the same store. *)
Theorem C7_list_twice_same now w :
  fst (getAllMappings now (snd (getAllMappings now w)))
  = fst (getAllMappings now w)
  /\ snd (getAllMappings now (snd (getAllMappings now w)))
     = snd (getAllMappings now w).
Proof.
  unfold getAllMappings; simpl.
  rewrite cleanExpiredMappings_idem. split; reflexivity.
Qed.

(** C8: delete(c) removes every record whose shortcode is c, whatever
    its expiry, keeps the others in order, and returns true exactly
    when a record was removed; with no record of c it returns false and
    leaves the store as it was. *)
Theorem C8_delete_removes_all code w :
  let r := deleteMappingByShortcode code w in
  (forall m, In m (storage (snd r))
             <-> In m (storage w) /\ shortcode m <> code)
  /\ storage (snd r) = filter (fun m => negb (hasCode code m)) (storage w)
  /\ (fst r = true <-> exists m, In m (storage w) /\ shortcode m = code)
  /\ ((forall m, In m (storage w) -> shortcode m <> code) -> r = (false, w)).
Proof.
  unfold deleteMappingByShortcode.
  set (keep := fun m => negb (hasCode code m)).
  assert (Hin : forall m, In m (filter keep (storage w))
                          <-> In m (storage w) /\ shortcode m <> code).
  { intros m. rewrite filter_In. unfold keep.
    rewrite negb_true_iff, hasCode_false. reflexivity. }
  assert (Hall : (forall m, In m (storage w) -> shortcode m <> code)
                 -> filter keep (storage w) = storage w).
  { intros G. apply filter_all. intros m Hm. unfold keep.
    apply negb_true_iff, hasCode_false, G, Hm. }
  destruct (Nat.eqb _ _) eqn:E; cbn [fst snd storage].
  - apply Nat.eqb_eq, filter_same_length in E.
    split; [|split; [|split]].
    + intros m. rewrite <- E at 1. apply Hin.
    + symmetry. exact E.
    + split; [discriminate|].
      intros (m & Hm & Hc). rewrite <- E in Hm. apply Hin in Hm. tauto.
    + reflexivity.
  - apply Nat.eqb_neq in E.
    split; [|split; [|split]].
    + exact Hin.
    + reflexivity.
    + split; [intros _|reflexivity].
      destruct (existsb (hasCode code) (storage w)) eqn:X.
      * apply existsb_exists in X. destruct X as (m & Hm & Hc).
        exists m. split; [exact Hm|]. now apply hasCode_true.
      * exfalso. apply E. f_equal. apply Hall. intros m Hm.
        apply hasCode_false. revert m Hm. now apply existsb_false_iff.
    + intros G. exfalso. apply E. f_equal. now apply Hall.
Qed.

Lemma C8_delete_removes_all_witness :
  deleteMappingByShortcode "abc" demo_world
  = (true, {| storage := [demo_record "xyz" (demo_now + 60000)];
              randomCalls := 0 |})
  /\ deleteMappingByShortcode "nope" demo_world = (false, demo_world).
Proof.
  split.
  - destruct (C8_delete_removes_all "abc" demo_world)
      as (_ & Hstore & Htrue & _).
    destruct (deleteMappingByShortcode "abc" demo_world) as [b [st k]] eqn:E.
    cbn [fst snd storage] in Hstore, Htrue.
    assert (b = true) as ->.
    { apply Htrue. exists (demo_record "abc" (demo_now - 1)).
      split; [left|]; reflexivity. }
    rewrite Hstore.
    assert (k = 0%nat) as -> by (vm_compute in E; now inversion E).
    reflexivity.
  - apply (C8_delete_removes_all "nope" demo_world).
    intros m [<-|[<-|[<-|[]]]]; discriminate.
Defined.

(** ** The retry loop *)

Section Generator.

Variable randomIndex : nat -> nat.

Lemma generateFresh_step fuel mappings k :
  generateFresh randomIndex (S fuel) mappings k
  = if existsb (hasCode (attempt randomIndex k 0)) mappings
    then generateFresh randomIndex fuel mappings (k + 6)
    else Some (attempt randomIndex k 0, (k + 6)%nat).
Proof.
  unfold attempt. replace (k + 6 * 0)%nat with k by lia. reflexivity.
Qed.

Lemma attempt_shift k j :
  attempt randomIndex k (S j) = attempt randomIndex (k + 6) j.
Proof. unfold attempt. f_equal. f_equal. lia. Qed.

Lemma generateFresh_sound fuel mappings : forall k code k',
  generateFresh randomIndex fuel mappings k = Some (code, k') ->
  existsb (hasCode code) mappings = false.
Proof.
  induction fuel as [|fuel IH]; intros k code k' H; [discriminate|].
  rewrite generateFresh_step in H.
  destruct (existsb (hasCode (attempt randomIndex k 0)) mappings) eqn:E.
  - eapply IH; eauto.
  - inversion H; subst. exact E.
Qed.

Lemma generateFresh_terminates fuel mappings : forall k,
  freshWithin randomIndex fuel mappings k ->
  exists code k', generateFresh randomIndex fuel mappings k = Some (code, k').
Proof.
  induction fuel as [|fuel IH]; intros k (j & Hj & Hfresh); [lia|].
  rewrite generateFresh_step.
  destruct (existsb (hasCode (attempt randomIndex k 0)) mappings) eqn:E.
  - destruct j as [|j]; [congruence|].
    apply IH. exists j. split; [lia|]. now rewrite <- attempt_shift.
  - eauto.
Qed.

End Generator.

(** ** Dates through the store *)

Lemma newDate_in_range tv :
  Z.abs tv <= maxTimeValue -> newDate tv = ValidDate tv.
Proof. intros H. unfold newDate. apply Z.leb_le in H. now rewrite H. Qed.

Lemma newDate_out_of_range tv :
  maxTimeValue < Z.abs tv -> newDate tv = InvalidDate.
Proof. intros H. unfold newDate. apply Z.leb_gt in H. now rewrite H. Qed.

Lemma stored_date_in_range tv :
  Z.abs tv <= maxTimeValue -> parseDate (toJSON (newDate tv)) = ValidDate tv.
Proof.
  intros H. rewrite (newDate_in_range _ H). simpl. now apply newDate_in_range.
Qed.

Lemma stored_date_out_of_range tv :
  maxTimeValue < Z.abs tv -> parseDate (toJSON (newDate tv)) = ValidDate 0.
Proof. intros H. now rewrite (newDate_out_of_range _ H). Qed.

(** ** resolve at one reading of the clock *)

Lemma resolveShortcode_same_time now code w :
  resolveShortcode now now code w
  = match find (hasCode code) (filter (live now) (storage w)) with
    | None =>
        (NotFound,
         {| storage := filter (live now) (storage w);
            randomCalls := randomCalls w |})
    | Some mapping =>
        (Resolved (originalUrl mapping),
         {| storage :=
              updateFirst (hasCode code) increment
                (filter (live now) (storage w));
            randomCalls := randomCalls w |})
    end.
Proof.
  unfold resolveShortcode. rewrite cleanExpiredMappings_filter.
  destruct (find _ _) as [m|] eqn:F; [|reflexivity].
  apply find_some in F. destruct F as [Hin _].
  apply filter_In in Hin. destruct Hin as [_ Hlive].
  unfold live in Hlive. now rewrite (date_gt_not_le _ _ Hlive).
Qed.

Lemma find_hasCode_none code st :
  find (hasCode code) st = None
  <-> forall m, In m st -> shortcode m <> code.
Proof.
  split.
  - intros F m Hm. apply hasCode_false. exact (find_none _ _ F m Hm).
  - intros H. apply find_none_existsb, existsb_false_iff.
    intros m Hm. apply hasCode_false. auto.
Qed.

(** C10: with one reading of the clock for the sweep and for the
    explicit expiry check, resolve never leaves through the expired
    branch: it answers null only through the not-found branch, which
    is taken exactly when no live record carries the code. *)
Theorem C10_expired_check_unreachable now code w :
  fst (resolveShortcode now now code w) <> Expired
  /\ (returned (fst (resolveShortcode now now code w)) = None
      <-> fst (resolveShortcode now now code w) = NotFound)
  /\ (fst (resolveShortcode now now code w) = NotFound
      <-> forall m, In m (storage w) -> live now m = true ->
                    shortcode m <> code).
Proof.
  rewrite resolveShortcode_same_time.
  destruct (find _ _) as [m|] eqn:F; cbn [fst returned].
  - split; [discriminate|]. split; [split; discriminate|].
    split; [discriminate|]. intros H. exfalso.
    apply find_some in F. destruct F as [Hin Hc].
    apply filter_In in Hin. destruct Hin as [Hin Hlive].
    apply (H m Hin Hlive). now apply hasCode_true.
  - split; [discriminate|]. split; [tauto|].
    split; [intros _|reflexivity].
    intros m Hin Hlive. apply (proj1 (find_hasCode_none _ _) F).
    apply filter_In. tauto.
Qed.

Lemma C10_expired_check_unreachable_witness :
  fst (resolveShortcode demo_now demo_now "nope" demo_world) = NotFound
  /\ fst (resolveShortcode (demo_now + 60000) (demo_now + 60000) "abc"
            demo_world) <> Expired.
Proof.
  split.
  - apply (C10_expired_check_unreachable demo_now "nope" demo_world).
    intros m [<-|[<-|[<-|[]]]] _; discriminate.
  - apply (C10_expired_check_unreachable (demo_now + 60000) "abc" demo_world).
Defined.

(** ** create *)

Section Create.

Variable url_parses : string -> bool.
Variable BASE_URL : string.
Variable randomIndex : nat -> nat.

Local Abbreviation shortenUrl := (shortenUrl url_parses BASE_URL randomIndex).
Local Abbreviation store := (store BASE_URL).

Lemma shortenUrl_invalid_url fuel tSweep tNow tCreated request w :
  url_parses (ShortenUrlRequest.originalUrl request) = false ->
  shortenUrl fuel tSweep tNow tCreated request w = (Thrown InvalidUrlError, w).
Proof. intros H. unfold shortenUrl, isValidUrl. now rewrite H. Qed.

Lemma shortenUrl_custom fuel tSweep tNow tCreated request code w :
  url_parses (ShortenUrlRequest.originalUrl request) = true ->
  truthy (ShortenUrlRequest.customShortcode request) = Some code ->
  isValidShortcode code = true ->
  existsb (hasCode code) (filter (live tSweep) (storage w)) = false ->
  shortenUrl fuel tSweep tNow tCreated request w
  = store tNow tCreated request code (filter (live tSweep) (storage w))
      (randomCalls w).
Proof.
  intros Hu Hc Hv Hf. unfold shortenUrl, isValidUrl.
  rewrite Hu, Hc, Hv, cleanExpiredMappings_filter, Hf. reflexivity.
Qed.

Lemma shortenUrl_generated fuel tSweep tNow tCreated request code k w :
  url_parses (ShortenUrlRequest.originalUrl request) = true ->
  truthy (ShortenUrlRequest.customShortcode request) = None ->
  generateFresh randomIndex fuel (filter (live tSweep) (storage w))
    (randomCalls w) = Some (code, k) ->
  shortenUrl fuel tSweep tNow tCreated request w
  = store tNow tCreated request code (filter (live tSweep) (storage w)) k.
Proof.
  intros Hu Hc Hg. unfold shortenUrl, isValidUrl.
  rewrite Hu, Hc, cleanExpiredMappings_filter, Hg. reflexivity.
Qed.

(** Every call that returns went through [store] with a code that no
    record left by the sweep carries. *)
Lemma shortenUrl_returned fuel tSweep tNow tCreated request w resp w' :
  shortenUrl fuel tSweep tNow tCreated request w = (Returned resp, w') ->
  exists code k,
    url_parses (ShortenUrlRequest.originalUrl request) = true
    /\ existsb (hasCode code) (filter (live tSweep) (storage w)) = false
    /\ store tNow tCreated request code (filter (live tSweep) (storage w)) k
       = (Returned resp, w').
Proof.
  unfold shortenUrl, isValidUrl. rewrite cleanExpiredMappings_filter.
  destruct (url_parses _); cbn [negb]; [|discriminate].
  destruct (truthy _) as [code|].
  - destruct (isValidShortcode code); cbn [negb]; [|discriminate].
    destruct (existsb _ _) eqn:E; [discriminate|].
    intros H. exists code, (randomCalls w). auto.
  - destruct (generateFresh _ _ _ _) as [[code k]|] eqn:G; [|discriminate].
    intros H. exists code, k. split; [reflexivity|]. split; [|exact H].
    eapply generateFresh_sound; eauto.
Qed.

End Create.

(** ** resolve and list right after create *)

Lemma live_filter_all now st m :
  In m (filter (live now) st) -> live now m = true.
Proof. intros H. apply filter_In in H. tauto. Qed.

Lemma filter_live_app_last now ms new :
  (forall m, In m ms -> live now m = true) ->
  filter (live now) (ms ++ [new])
  = if live now new then ms ++ [new] else ms.
Proof.
  intros H. rewrite filter_app, (filter_all _ _ H). simpl.
  destruct (live now new); [reflexivity|apply app_nil_r].
Qed.

Lemma resolve_after_store_live now code ms new k :
  existsb (hasCode code) ms = false ->
  (forall m, In m ms -> live now m = true) ->
  shortcode new = code ->
  live now new = true ->
  fst (resolveShortcode now now code
         {| storage := ms ++ [new]; randomCalls := k |})
  = Resolved (originalUrl new).
Proof.
  intros Hf Hall Hc Hl. rewrite resolveShortcode_same_time. cbn [storage].
  rewrite (filter_live_app_last _ _ _ Hall), Hl.
  rewrite (find_app_last _ _ _ Hf); [reflexivity|now apply hasCode_true].
Qed.


Lemma orDefault_nonzero v d : v <> 0 -> orDefault (Some v) d = v.
Proof. destruct v; simpl; congruence. Qed.

Lemma truthy_valid c : isValidShortcode c = true -> truthy (Some c) = Some c.
Proof. destruct c; [discriminate|reflexivity]. Qed.

Lemma truthy_nonempty c : c <> EmptyString -> truthy (Some c) = Some c.
Proof. destruct c; [congruence|reflexivity]. Qed.

Lemma newMapping_live_in_range now tCreated request code :
  let v := orDefault (ShortenUrlRequest.validityMinutes request) 30 in
  Z.abs (now + v * 60 * 1000) <= maxTimeValue ->
  live now (newMapping now tCreated request code) = (0 <? v).
Proof.
  intros v H. unfold live, newMapping. cbn [expiresAt]. fold v.
  rewrite (stored_date_in_range _ H). cbn [date_gt].
  destruct (0 <? v) eqn:E.
  - apply Z.ltb_lt in E. apply Z.ltb_lt. lia.
  - apply Z.ltb_ge in E. apply Z.ltb_ge. lia.
Qed.


(** ** The claims about create *)

(** C1, as amended: for every string u that parses as an absolute URL
    and every whole number of minutes v > 0 for which now + v*60*1000
    stays within the range of a Date (8.64e15 ms around the epoch),
    a create(u, undefined, v) that returns is resolved to u at the
    same time, and create does return as soon as one of the codes it
    draws is free. *)
Theorem C1_create_then_resolve
  url_parses BASE_URL randomIndex fuel now u v w :
  url_parses u = true ->
  0 < v ->
  Z.abs (now + v * 60 * 1000) <= maxTimeValue ->
  let request := ShortenUrlRequest.make u None (Some v) in
  (forall resp w',
      shortenUrl url_parses BASE_URL randomIndex fuel now now now request w
      = (Returned resp, w') ->
      returned
        (fst (resolveShortcode now now (ShortenUrlResponse.shortcode resp) w'))
      = Some u)
  /\ (freshWithin randomIndex fuel (cleanExpiredMappings now (storage w))
        (randomCalls w) ->
      exists resp w',
        shortenUrl url_parses BASE_URL randomIndex fuel now now now request w
        = (Returned resp, w')).
Proof.
  intros Hu Hv Hr request. split.
  - intros resp w' H.
    apply shortenUrl_returned in H. destruct H as (code & k & _ & Hf & H).
    unfold store in H. inversion H; subst; clear H.
    cbn [ShortenUrlResponse.shortcode].
    rewrite (resolve_after_store_live now code _ _ k Hf).
    + reflexivity.
    + intros m. apply live_filter_all.
    + reflexivity.
    + rewrite newMapping_live_in_range; cbn [request ShortenUrlRequest.validityMinutes];
        rewrite orDefault_nonzero by lia; [now apply Z.ltb_lt|exact Hr].
  - rewrite cleanExpiredMappings_filter. intros Hfresh.
    apply generateFresh_terminates in Hfresh.
    destruct Hfresh as (code & k & G).
    rewrite (shortenUrl_generated url_parses BASE_URL randomIndex
               fuel now now now request code k w Hu eq_refl G).
    unfold store. eauto.
Qed.

Lemma C1_create_then_resolve_witness :
  exists resp w',
    shortenUrl demo_parses demo_origin demo_random 1
      demo_now demo_now demo_now (demo_request None (Some 30)) init
    = (Returned resp, w')
    /\ returned
         (fst (resolveShortcode demo_now demo_now
                 (ShortenUrlResponse.shortcode resp) w'))
       = Some demo_url.
Proof.
  destruct (C1_create_then_resolve demo_parses demo_origin demo_random 1
              demo_now demo_url 30 init) as [Hres Hret].
  - reflexivity.
  - reflexivity.
  - vm_compute. discriminate.
  - destruct Hret as (resp & w' & E).
    + exists 0%nat. split; [apply Nat.lt_0_1|reflexivity].
    + exists resp, w'. split; [exact E|]. apply Hres. exact E.
Defined.

(** C1 as stated fails: with v = 10^12 minutes the expiry is an invalid
    Date, stored as null and read back as the epoch, so the mapping is
    swept by the very next resolve. *)
Lemma C1_fails_beyond_date_range :
  demo_parses demo_url = true
  /\ 0 < 1000000000000
  /\ exists resp w',
       shortenUrl demo_parses demo_origin demo_random 1
         demo_now demo_now demo_now
         (demo_request None (Some 1000000000000)) init
       = (Returned resp, w')
       /\ returned
            (fst (resolveShortcode demo_now demo_now
                    (ShortenUrlResponse.shortcode resp) w'))
          = None.
Proof.
  split; [reflexivity|]. split; [reflexivity|].
  eexists. eexists. split; reflexivity.
Qed.




(** C3: for every URL u that parses and every custom code c that
    matches the format and is not the shortcode of a live mapping,
    create(u, c) returns a record with shortcode c and stores it; any
    later create with the same c, made while that mapping is live,
    fails with CodeTakenError. *)
Theorem C3_custom_code_once
  url_parses BASE_URL randomIndex fuel tSweep tNow tCreated u c v w :
  url_parses u = true ->
  isValidShortcode c = true ->
  (forall m, In m (storage w) -> live tSweep m = true -> shortcode m <> c) ->
  let request := ShortenUrlRequest.make u (Some c) v in
  exists resp w',
    shortenUrl url_parses BASE_URL randomIndex fuel tSweep tNow tCreated
      request w = (Returned resp, w')
    /\ ShortenUrlResponse.shortcode resp = c
    /\ In (newMapping tNow tCreated request c) (storage w')
    /\ forall fuel2 tSweep2 tNow2 tCreated2 u2 v2,
         url_parses u2 = true ->
         live tSweep2 (newMapping tNow tCreated request c) = true ->
         fst (shortenUrl url_parses BASE_URL randomIndex fuel2
                tSweep2 tNow2 tCreated2
                (ShortenUrlRequest.make u2 (Some c) v2) w')
         = Thrown CodeTakenError.
Proof.
  intros Hu Hc Hfree request.
  assert (Hf : existsb (hasCode c) (filter (live tSweep) (storage w)) = false).
  { apply existsb_false_iff. intros m Hm. apply filter_In in Hm.
    apply hasCode_false. now apply Hfree. }
  rewrite (shortenUrl_custom url_parses BASE_URL randomIndex fuel
             tSweep tNow tCreated request c w Hu (truthy_valid c Hc) Hc Hf).
  unfold store. eexists. eexists. split; [reflexivity|].
  cbn [ShortenUrlResponse.shortcode storage].
  split; [reflexivity|]. split; [apply in_or_app; right; now left|].
  intros fuel2 tSweep2 tNow2 tCreated2 u2 v2 Hu2 Hlive.
  unfold shortenUrl, isValidUrl.
  cbn [ShortenUrlRequest.originalUrl ShortenUrlRequest.customShortcode storage].
  rewrite Hu2, (truthy_valid c Hc), Hc. cbn [negb].
  rewrite cleanExpiredMappings_filter.
  assert (existsb (hasCode c)
            (filter (live tSweep2)
               (filter (live tSweep) (storage w)
                ++ [newMapping tNow tCreated request c])) = true) as ->.
  { apply existsb_exists. exists (newMapping tNow tCreated request c).
    split; [|now apply hasCode_true].
    apply filter_In. split; [|exact Hlive].
    apply in_or_app. right. now left. }
  reflexivity.
Qed.

Lemma C3_custom_code_once_witness :
  exists resp w',
    demo_create (Some "abc"%string) None = (Returned resp, w')
    /\ ShortenUrlResponse.shortcode resp = "abc"%string
    /\ fst (shortenUrl demo_parses demo_origin demo_random 1
              (demo_now + 1000) (demo_now + 1000) (demo_now + 1000)
              (demo_request (Some "abc"%string) (Some 5)) w')
       = Thrown CodeTakenError.
Proof.
  destruct (C3_custom_code_once demo_parses demo_origin demo_random 1
              demo_now demo_now demo_now demo_url "abc" None init)
    as (resp & w' & E & Hcode & _ & Htaken).
  - reflexivity.
  - reflexivity.
  - intros m [].
  - exists resp, w'. split; [exact E|]. split; [exact Hcode|].
    apply Htaken; reflexivity.
Defined.

(** C4, as amended: for every URL u that parses and every non-empty
    custom code c that does not match the format, create(u, c) fails
    with InvalidCodeFormatError; the store afterwards holds the records
    that were live before the call and nothing else. *)
Theorem C4_malformed_code_rejected
  url_parses BASE_URL randomIndex fuel tSweep tNow tCreated u c v w :
  url_parses u = true ->
  c <> EmptyString ->
  isValidShortcode c = false ->
  let r := shortenUrl url_parses BASE_URL randomIndex fuel
             tSweep tNow tCreated (ShortenUrlRequest.make u (Some c) v) w in
  fst r = Thrown InvalidCodeFormatError
  /\ storage (snd r) = filter (live tSweep) (storage w)
  /\ (forall m, In m (storage (snd r)) -> In m (storage w))
  /\ (List.length (storage (snd r)) <= List.length (storage w))%nat.
Proof.
  intros Hu Hne Hc r. subst r. unfold shortenUrl, isValidUrl.
  cbn [ShortenUrlRequest.originalUrl ShortenUrlRequest.customShortcode].
  rewrite Hu, (truthy_nonempty c Hne), Hc. cbn [negb fst snd storage].
  rewrite cleanExpiredMappings_filter.
  split; [reflexivity|]. split; [reflexivity|]. split.
  - intros m Hm. apply filter_In in Hm. tauto.
  - apply filter_length_le.
Qed.

Lemma C4_malformed_code_rejected_witness :
  fst (demo_create (Some "a-b"%string) None) = Thrown InvalidCodeFormatError
  /\ storage (snd (demo_create (Some "a-b"%string) None)) = storage init.
Proof.
  destruct (C4_malformed_code_rejected demo_parses demo_origin demo_random 1
              demo_now demo_now demo_now demo_url "a-b" None init)
    as (Hthrown & Hstore & _).
  - reflexivity.
  - discriminate.
  - reflexivity.
  - split; [exact Hthrown|exact Hstore].
Defined.

(** C4 as stated fails: the empty string does not match the format,
    yet create(u, '') takes it for no custom code, returns with a
    generated code and stores a record. *)
Lemma C4_empty_code_is_generated :
  demo_parses demo_url = true
  /\ isValidShortcode EmptyString = false
  /\ exists resp w',
       demo_create (Some EmptyString) None = (Returned resp, w')
       /\ ShortenUrlResponse.shortcode resp = "abcdef"%string
       /\ List.length (storage w') = S (List.length (storage init)).
Proof.
  split; [reflexivity|]. split; [reflexivity|].
  eexists. eexists. split; [reflexivity|]. split; reflexivity.
Qed.

(** C5: create fails with InvalidUrlError exactly when the platform's
    parser rejects the string; nothing else about the string is looked
    at, so every string the parser accepts, whatever its scheme, goes
    through: with no custom code, create returns a record for it once
    a free code is drawn. *)
Theorem C5_invalid_url_iff_unparseable url_parses BASE_URL randomIndex :
  (forall fuel tSweep tNow tCreated request w,
      fst (shortenUrl url_parses BASE_URL randomIndex fuel
             tSweep tNow tCreated request w) = Thrown InvalidUrlError
      <-> url_parses (ShortenUrlRequest.originalUrl request) = false)
  /\ (forall fuel tSweep tNow tCreated s v w,
        url_parses s = true ->
        freshWithin randomIndex fuel (cleanExpiredMappings tSweep (storage w))
          (randomCalls w) ->
        exists resp w',
          shortenUrl url_parses BASE_URL randomIndex fuel
            tSweep tNow tCreated (ShortenUrlRequest.make s None v) w
          = (Returned resp, w')
          /\ ShortenUrlResponse.originalUrl resp = s
          /\ exists m, In m (storage w') /\ originalUrl m = s
                       /\ shortcode m = ShortenUrlResponse.shortcode resp).
Proof.
  split.
  - intros fuel tSweep tNow tCreated request w. split.
    + unfold shortenUrl, isValidUrl.
      destruct (url_parses _); cbn [negb]; [|reflexivity].
      destruct (truthy _) as [code|].
      * destruct (isValidShortcode code); cbn [negb fst]; [|discriminate].
        destruct (existsb _ _); cbn [fst]; discriminate.
      * destruct (generateFresh _ _ _ _) as [[code k]|]; cbn [fst];
          discriminate.
    + intros H. now rewrite shortenUrl_invalid_url.
  - intros fuel tSweep tNow tCreated s v w Hs Hfresh.
    rewrite cleanExpiredMappings_filter in Hfresh.
    apply generateFresh_terminates in Hfresh.
    destruct Hfresh as (code & k & G).
    rewrite (shortenUrl_generated url_parses BASE_URL randomIndex fuel
               tSweep tNow tCreated (ShortenUrlRequest.make s None v)
               code k w Hs eq_refl G).
    unfold store. eexists. eexists. split; [reflexivity|].
    cbn [ShortenUrlResponse.originalUrl ShortenUrlResponse.shortcode storage
         ShortenUrlRequest.originalUrl].
    split; [reflexivity|].
    exists (newMapping tNow tCreated (ShortenUrlRequest.make s None v) code).
    split; [apply in_or_app; right; now left|]. split; reflexivity.
Qed.

Lemma C5_invalid_url_iff_unparseable_witness :
  fst (shortenUrl demo_parses demo_origin demo_random 1
         demo_now demo_now demo_now
         (ShortenUrlRequest.make "not a url" None None) init)
  = Thrown InvalidUrlError
  /\ exists resp w',
       shortenUrl demo_parses demo_origin demo_random 1
         demo_now demo_now demo_now
         (ShortenUrlRequest.make "javascript:alert(1)" None None) init
       = (Returned resp, w')
       /\ ShortenUrlResponse.originalUrl resp = "javascript:alert(1)"%string.
Proof.
  destruct (C5_invalid_url_iff_unparseable demo_parses demo_origin demo_random)
    as [Hiff Hpass].
  split.
  - apply Hiff. reflexivity.
  - destruct (Hpass 1%nat demo_now demo_now demo_now
                "javascript:alert(1)"%string None init)
      as (resp & w' & E & Hurl & _).
    + reflexivity.
    + exists 0%nat. split; [apply Nat.lt_0_1|reflexivity].
    + exists resp, w'. split; [exact E|exact Hurl].
Defined.

(** ** What each operation leaves in the store *)

Section Steps.

Variable url_parses : string -> bool.
Variable BASE_URL : string.
Variable randomIndex : nat -> nat.

Local Abbreviation shortenUrl := (shortenUrl url_parses BASE_URL randomIndex).
Local Abbreviation run := (run url_parses BASE_URL randomIndex).
Local Abbreviation reachable := (reachable url_parses BASE_URL randomIndex).

Lemma shortenUrl_storage fuel tSweep tNow tCreated request w :
  afterCreate tSweep tNow tCreated request (storage w)
    (storage (snd (shortenUrl fuel tSweep tNow tCreated request w))).
Proof.
  unfold shortenUrl, isValidUrl, store.
  rewrite cleanExpiredMappings_filter.
  destruct (url_parses _); cbn [negb snd storage]; [|constructor].
  destruct (truthy _) as [code|].
  - destruct (isValidShortcode code); cbn [negb snd storage]; [|constructor].
    destruct (existsb _ _) eqn:E; cbn [snd storage]; now constructor.
  - destruct (generateFresh _ _ _ _) as [[code k]|] eqn:G;
      cbn [snd storage]; [|constructor].
    constructor. eapply generateFresh_sound; eauto.
Qed.

(** The two shapes of the store after a call of [resolveShortcode]. *)
Lemma resolveShortcode_storage tSweep tCheck code w :
  let st' := storage (snd (resolveShortcode tSweep tCheck code w)) in
  st' = filter (live tSweep) (storage w)
  \/ st' = updateFirst (hasCode code) increment
             (filter (live tSweep) (storage w)).
Proof.
  unfold resolveShortcode. rewrite cleanExpiredMappings_filter.
  destruct (find _ _) as [m|]; [|now left].
  destruct (date_le _ _); [now left|now right].
Qed.

Lemma deleteMappingByShortcode_storage code w :
  storage (snd (deleteMappingByShortcode code w))
  = filter (fun m => negb (hasCode code m)) (storage w).
Proof.
  unfold deleteMappingByShortcode.
  destruct (Nat.eqb _ _) eqn:E; [|reflexivity].
  apply Nat.eqb_eq, filter_same_length in E. cbn [snd]. now symmetry.
Qed.

End Steps.

(** ** At most one live mapping per shortcode *)

Lemma filter_updateFirst_length (P p : UrlMapping -> bool) f l :
  (forall m, P (f m) = P m) ->
  List.length (filter P (updateFirst p f l)) = List.length (filter P l).
Proof.
  intros HP. induction l as [|m l IH]; simpl; [reflexivity|].
  destruct (p m); simpl.
  - rewrite HP. destruct (P m); reflexivity.
  - destruct (P m); simpl; now rewrite IH.
Qed.

Lemma atMostOneLive_filter q st :
  atMostOneLive st -> atMostOneLive (filter q st).
Proof.
  intros H now code. unfold liveWithCode.
  eapply Nat.le_trans; [apply filter_filter_length|apply H].
Qed.

Lemma atMostOneLive_updateFirst code st :
  atMostOneLive st -> atMostOneLive (updateFirst (hasCode code) increment st).
Proof.
  intros H now c. unfold liveWithCode.
  rewrite filter_updateFirst_length; [apply H|].
  intros m. reflexivity.
Qed.

Lemma atMostOneLive_push st new :
  atMostOneLive st ->
  existsb (hasCode (shortcode new)) st = false ->
  atMostOneLive (st ++ [new]).
Proof.
  intros H Hf now code. unfold liveWithCode.
  rewrite filter_app, length_app. simpl.
  destruct (hasCode code new) eqn:E.
  - apply hasCode_true in E. subst code.
    rewrite filter_none.
    + destruct (live now new); simpl; lia.
    + intros m Hm. rewrite (proj1 (existsb_false_iff _ _) Hf m Hm).
      apply andb_false_r.
  - rewrite andb_false_r. simpl. rewrite Nat.add_0_r. apply H.
Qed.

Lemma atMostOneLive_nil : atMostOneLive [].
Proof. intros now code. simpl. lia. Qed.

Section Invariant.

Variable url_parses : string -> bool.
Variable BASE_URL : string.
Variable randomIndex : nat -> nat.

Local Abbreviation run := (run url_parses BASE_URL randomIndex).
Local Abbreviation reachable := (reachable url_parses BASE_URL randomIndex).

Lemma run_atMostOneLive op w :
  atMostOneLive (storage w) -> atMostOneLive (storage (run op w)).
Proof.
  intros H. destruct op as [fuel t0 t1 t2 request|t0 t1 code|now|code];
    cbn [run].
  - destruct (shortenUrl_storage url_parses BASE_URL randomIndex
                fuel t0 t1 t2 request w) as [| |code Hf].
    + exact H.
    + now apply atMostOneLive_filter.
    + apply atMostOneLive_push; [now apply atMostOneLive_filter|exact Hf].
  - destruct (resolveShortcode_storage t0 t1 code w) as [-> | ->].
    + now apply atMostOneLive_filter.
    + now apply atMostOneLive_updateFirst, atMostOneLive_filter.
  - unfold getAllMappings. cbn [snd storage].
    rewrite cleanExpiredMappings_filter. now apply atMostOneLive_filter.
  - rewrite deleteMappingByShortcode_storage. now apply atMostOneLive_filter.
Qed.

End Invariant.

(** C6: every operation (create, resolve, list, delete, with any
    arguments, at any time and whatever its outcome) keeps the property
    that at most one live mapping exists per shortcode, and so the
    property holds in every state reachable from the empty store. *)
Theorem C6_at_most_one_live_per_code url_parses BASE_URL randomIndex :
  (forall op w,
      atMostOneLive (storage w) ->
      atMostOneLive (storage (run url_parses BASE_URL randomIndex op w)))
  /\ (forall w,
        reachable url_parses BASE_URL randomIndex w ->
        atMostOneLive (storage w)).
Proof.
  split.
  - apply run_atMostOneLive.
  - intros w R. induction R as [|op w R IH].
    + apply atMostOneLive_nil.
    + now apply run_atMostOneLive.
Qed.

Lemma C6_at_most_one_live_per_code_witness :
  let w1 := snd (demo_create (Some "abc"%string) None) in
  let w2 := run demo_parses demo_origin demo_random
              (OpCreate 1 demo_now demo_now demo_now
                 (demo_request (Some "abc"%string) (Some 5))) w1 in
  List.length (liveWithCode demo_now "abc" (storage w2)) = 1%nat
  /\ atMostOneLive (storage w2).
Proof.
  intros w1 w2. split; [reflexivity|].
  apply (proj2 (C6_at_most_one_live_per_code
                  demo_parses demo_origin demo_random)).
  apply reachable_run.
  apply (reachable_run demo_parses demo_origin demo_random
           (OpCreate 1 demo_now demo_now demo_now
              (demo_request (Some "abc"%string) None)) init).
  apply reachable_init.
Defined.

(** ** Records change only in their count *)

Lemma find_split (p : UrlMapping -> bool) f l m :
  find p l = Some m ->
  exists l1 l2,
    l = l1 ++ m :: l2
    /\ updateFirst p f l = l1 ++ f m :: l2
    /\ forall x, In x l1 -> p x = false.
Proof.
  induction l as [|a l IH]; simpl; [discriminate|].
  destruct (p a) eqn:E; intros H.
  - inversion H; subst. exists [], l. repeat split. intros x [].
  - destruct (IH H) as (l1 & l2 & -> & -> & Hl1).
    exists (a :: l1), l2. repeat split.
    intros x [<-|Hx]; auto.
Qed.

Lemma find_hd_filter {A} (p : A -> bool) l :
  find p l = hd_error (filter p l).
Proof.
  induction l as [|a l IH]; simpl; [reflexivity|].
  destruct (p a); [reflexivity|exact IH].
Qed.

Lemma filter_filter_andb {A} (p q : A -> bool) l :
  filter p (filter q l) = filter (fun x => q x && p x) l.
Proof.
  induction l as [|a l IH]; simpl; [reflexivity|].
  destruct (q a); simpl; [destruct (p a)|]; now rewrite IH.
Qed.

Lemma sameIdentity_refl m : sameIdentity m m.
Proof. repeat split. Qed.

Lemma sameIdentity_increment m : sameIdentity m (increment m).
Proof. repeat split. Qed.

Lemma numberSucc_ge x : x <= numberSucc x.
Proof.
  unfold numberSucc. destruct (_ && _); [lia|]. destruct (_ && _); lia.
Qed.

Lemma numberSucc_exact x :
  - twoTo53 <= x < twoTo53 -> numberSucc x = x + 1.
Proof.
  intros [H1 H2]. unfold numberSucc.
  apply Z.leb_le in H1. apply Z.ltb_lt in H2. now rewrite H1, H2.
Qed.

Lemma not_expired_live now t m :
  live now m = true -> isExpired (expiresAt m) t = false -> live t m = true.
Proof.
  unfold live, isExpired. destruct (parseDate (expiresAt m)) as [tv|];
    simpl; [|discriminate].
  intros _ H. apply Z.leb_gt in H. now apply Z.ltb_lt.
Qed.

Lemma distinct_codes_atMostOneLive st :
  NoDup (map shortcode st) -> atMostOneLive st.
Proof.
  intros Hnd now code. unfold liveWithCode.
  induction st as [|m st IH]; simpl; [lia|].
  inversion Hnd as [|x xs Hnotin Hnd']; subst.
  destruct (hasCode code m) eqn:E.
  - apply hasCode_true in E. subst code.
    rewrite (filter_none _ st).
    + destruct (live now m); simpl; lia.
    + intros a Ha. apply andb_false_iff. right. apply hasCode_false.
      intros Heq. apply Hnotin. rewrite <- Heq. now apply in_map.
  - rewrite andb_false_r. now apply IH.
Qed.

Lemma find_middle (p : UrlMapping -> bool) f l1 m l2 :
  (forall x, In x l1 -> p x = false) -> p m = true ->
  find p (l1 ++ m :: l2) = Some m
  /\ updateFirst p f (l1 ++ m :: l2) = l1 ++ f m :: l2.
Proof.
  intros H1 Hm. induction l1 as [|a l1 IH]; simpl.
  - now rewrite Hm.
  - rewrite (H1 a (or_introl eq_refl)).
    destruct IH as [-> ->]; [intros x Hx; apply H1; now right|]. auto.
Qed.

Lemma live_unique_shape now code st m :
  atMostOneLive st ->
  In m st -> live now m = true -> shortcode m = code ->
  exists l1 l2,
    filter (live now) st = l1 ++ m :: l2
    /\ forall x, In x l1 -> hasCode code x = false.
Proof.
  intros Hinv Hin Hlive Hcode.
  assert (Hm : In m (liveWithCode now code st)).
  { apply filter_In. split; [exact Hin|].
    rewrite Hlive. now apply hasCode_true. }
  assert (Hone : liveWithCode now code st = [m]).
  { specialize (Hinv now code).
    destruct (liveWithCode now code st) as [|a [|b l]];
      simpl in *; [tauto| |lia].
    destruct Hm as [->|[]]. reflexivity. }
  assert (F : find (hasCode code) (filter (live now) st) = Some m).
  { rewrite find_hd_filter, filter_filter_andb.
    unfold liveWithCode in Hone. now rewrite Hone. }
  destruct (find_split _ increment _ _ F) as (l1 & l2 & E1 & _ & H1).
  eauto.
Qed.

Lemma resolveShortcode_hit_shape tSweep tCheck code w l1 m l2 :
  filter (live tSweep) (storage w) = l1 ++ m :: l2 ->
  (forall x, In x l1 -> hasCode code x = false) ->
  shortcode m = code ->
  live tCheck m = true ->
  resolveShortcode tSweep tCheck code w
  = (Resolved (originalUrl m),
     {| storage := l1 ++ increment m :: l2; randomCalls := randomCalls w |}).
Proof.
  intros E H1 Hc Hl.
  assert (Hm : hasCode code m = true) by now apply hasCode_true.
  destruct (find_middle (hasCode code) increment l1 m l2 H1 Hm) as [F U].
  unfold resolveShortcode. rewrite cleanExpiredMappings_filter, E, F, U.
  unfold live in Hl. now rewrite (date_gt_not_le _ _ Hl).
Qed.

Lemma persists_refl st : persists st st.
Proof.
  induction st as [|m st IH]; [constructor|].
  apply persists_keep; [apply sameIdentity_refl|lia|exact IH].
Qed.

Lemma persists_filter p st : persists st (filter p st).
Proof.
  induction st as [|m st IH]; simpl; [constructor|].
  destruct (p m).
  - apply persists_keep; [apply sameIdentity_refl|lia|exact IH].
  - now apply persists_drop.
Qed.

Lemma persists_updateFirst_filter q p st :
  persists st (updateFirst q increment (filter p st)).
Proof.
  induction st as [|m st IH]; simpl; [constructor|].
  destruct (p m); simpl.
  - destruct (q m).
    + apply persists_keep;
        [apply sameIdentity_increment|apply numberSucc_ge
        |apply persists_filter].
    + apply persists_keep; [apply sameIdentity_refl|lia|exact IH].
  - now apply persists_drop.
Qed.

Lemma persists_counts st st' :
  persists st st' ->
  Forall (fun m' => exists m, In m st /\ sameIdentity m m'
                              /\ accessCount m <= accessCount m') st'.
Proof.
  induction 1 as [|m st st' _ IH|m m' st st' Hid Hle _ IH].
  - constructor.
  - eapply Forall_impl; [|exact IH].
    intros m' (x & Hx & Hrest). exists x. split; [now right|exact Hrest].
  - constructor.
    + exists m. split; [now left|]. split; assumption.
    + eapply Forall_impl; [|exact IH].
      intros x' (x & Hx & Hrest). exists x. split; [now right|exact Hrest].
Qed.

(** A record whose count has fallen does not persist. *)
Example persists_rejects_a_fall m m' :
  accessCount m' < accessCount m -> ~ persists [m] [m'].
Proof.
  intros Hlt H.
  inversion H as [|x st st' Hdrop|x x' st st' _ Hle _]; subst.
  - inversion Hdrop.
  - lia.
Qed.

(** [x + 1] at the edge of the exact integers. *)
Example numberSucc_edge :
  numberSucc (twoTo53 - 1) = twoTo53
  /\ numberSucc twoTo53 = twoTo53
  /\ numberSucc (twoTo53 + 2) = twoTo53 + 4
  /\ numberSucc (twoTo54 - 2) = twoTo54
  /\ numberSucc twoTo54 = twoTo54
  /\ numberSucc (- twoTo53 - 2) = - twoTo53.
Proof. repeat split; reflexivity. Qed.

(** C9, as amended: every resolve that returns a URL, whatever its two
    readings of the clock, leaves the records that were live at its
    sweep in their order, the first one that carries the code with its
    accessCount raised by accessCount++ (by exactly one for a count
    within 2^53 of zero) and its other four fields as they were, every
    other live record as it was; the records already expired at the
    sweep are removed. In a store with at most one live mapping per
    shortcode, the resolve of the shortcode of a mapping that is live
    at both readings returns and counts for that mapping. accessCount
    never decreases: resolve, list and delete only remove records or
    keep them in place with a count that is no smaller and add none;
    create leaves the store alone or sweeps it, and adds at most one
    record, with count 0 and a shortcode that no record it keeps
    carries. *)
Theorem C9_resolve_counts_one url_parses BASE_URL randomIndex :
  (forall tSweep tCheck code w url,
      fst (resolveShortcode tSweep tCheck code w) = Resolved url ->
      exists l1 m l2,
        filter (live tSweep) (storage w) = l1 ++ m :: l2
        /\ (forall x, In x l1 -> shortcode x <> code)
        /\ shortcode m = code /\ originalUrl m = url
        /\ snd (resolveShortcode tSweep tCheck code w)
           = {| storage := l1 ++ increment m :: l2;
                randomCalls := randomCalls w |}
        /\ sameIdentity m (increment m)
        /\ (- twoTo53 <= accessCount m < twoTo53 ->
            accessCount (increment m) = accessCount m + 1))
  /\ (forall tSweep tCheck code w m,
        atMostOneLive (storage w) ->
        In m (storage w) -> shortcode m = code ->
        live tSweep m = true -> live tCheck m = true ->
        exists l1 l2,
          filter (live tSweep) (storage w) = l1 ++ m :: l2
          /\ resolveShortcode tSweep tCheck code w
             = (Resolved (originalUrl m),
                {| storage := l1 ++ increment m :: l2;
                   randomCalls := randomCalls w |}))
  /\ (forall op w,
        let st := storage w in
        let st' := storage (run url_parses BASE_URL randomIndex op w) in
        match op with
        | OpCreate fuel tSweep tNow tCreated request =>
            st' = st
            \/ st' = filter (live tSweep) st
            \/ exists code,
                 existsb (hasCode code) (filter (live tSweep) st) = false
                 /\ accessCount (newMapping tNow tCreated request code) = 0
                 /\ st' = filter (live tSweep) st
                          ++ [newMapping tNow tCreated request code]
        | _ => persists st st'
        end)
  /\ (forall st st',
        persists st st' ->
        Forall (fun m' => exists m, In m st /\ sameIdentity m m'
                                    /\ accessCount m <= accessCount m') st').
Proof.
  split; [|split; [|split]].
  - intros tSweep tCheck code w url.
    unfold resolveShortcode. rewrite cleanExpiredMappings_filter.
    destruct (find _ _) as [m|] eqn:F; cbn [fst]; [|discriminate].
    destruct (date_le _ _); cbn [fst snd]; [discriminate|].
    intros H. inversion H; subst; clear H.
    destruct (find_split _ increment _ _ F) as (l1 & l2 & E1 & E2 & H1).
    apply find_some in F. destruct F as [_ Hc]. apply hasCode_true in Hc.
    exists l1, m, l2. split; [exact E1|]. split.
    { intros x Hx. apply hasCode_false. now apply H1. }
    split; [exact Hc|]. split; [reflexivity|]. split; [now rewrite E2|].
    split; [apply sameIdentity_increment|].
    intros Hb. now apply numberSucc_exact.
  - intros tSweep tCheck code w m Hinv Hin Hcode Hl1 Hl2.
    destruct (live_unique_shape tSweep code _ m Hinv Hin Hl1 Hcode)
      as (l1 & l2 & E & H1).
    exists l1, l2. split; [exact E|].
    now apply resolveShortcode_hit_shape.
  - intros op w.
    destruct op as [fuel t0 t1 t2 request|t0 t1 code|now|code];
      cbn [run]; cbv zeta.
    + destruct (shortenUrl_storage url_parses BASE_URL randomIndex
                  fuel t0 t1 t2 request w) as [| |code Hf].
      * now left.
      * right. now left.
      * right. right. exists code. repeat split. exact Hf.
    + destruct (resolveShortcode_storage t0 t1 code w) as [-> | ->].
      * apply persists_filter.
      * apply persists_updateFirst_filter.
    + unfold getAllMappings. cbn [snd storage].
      rewrite cleanExpiredMappings_filter. apply persists_filter.
    + rewrite deleteMappingByShortcode_storage. apply persists_filter.
  - apply persists_counts.
Qed.

Lemma C9_resolve_counts_one_witness :
  resolveShortcode demo_now (demo_now + 1) "abc" demo_mixed
  = (Resolved demo_url,
     {| storage := [demo_record "xyz" (demo_now + 60000);
                    increment (demo_record "abc" (demo_now + 60000))];
        randomCalls := 0 |}).
Proof.
  destruct (proj1 (proj2 (C9_resolve_counts_one
                            demo_parses demo_origin demo_random))
              demo_now (demo_now + 1) "abc"%string demo_mixed
              (demo_record "abc" (demo_now + 60000)))
    as (l1 & l2 & E & Hres).
  - apply distinct_codes_atMostOneLive.
    repeat constructor; simpl; intuition discriminate.
  - right. right. left. reflexivity.
  - reflexivity.
  - reflexivity.
  - reflexivity.
  - rewrite Hres. clear Hres. vm_compute in E.
    destruct l1 as [|a [|b l1]].
    + discriminate E.
    + inversion E; subst. reflexivity.
    + inversion E as [[Ha Hb Hrest]]. destruct l1; discriminate Hrest.
Defined.

(** C9 as stated fails in two places. A resolve does not leave all
    other mappings of the collection as they were: a record that is
    already expired is removed by the sweep. And a count of 2^53 is not
    raised: the resolve returns the URL and the count stays. *)
Lemma C9_resolve_removes_expired_records :
  (In (demo_record "old" (demo_now - 1)) (storage demo_mixed)
   /\ fst (resolveShortcode demo_now demo_now "abc" demo_mixed)
      = Resolved demo_url
   /\ ~ In (demo_record "old" (demo_now - 1))
          (storage (snd (resolveShortcode demo_now demo_now "abc"
                           demo_mixed))))
  /\ (live demo_now demo_worn = true
      /\ resolveShortcode demo_now demo_now "abc"
           {| storage := [demo_worn]; randomCalls := 0 |}
         = (Resolved demo_url,
            {| storage := [demo_worn]; randomCalls := 0 |})).
Proof.
  split; [split; [|split]|split].
  - left. reflexivity.
  - reflexivity.
  - vm_compute. intros [H|[H|[]]]; discriminate H.
  - reflexivity.
  - reflexivity.
Qed.

(** ** Two runs *)

(** A create for 30 minutes followed by two resolves. *)
Example create_resolve_twice :
  let w1 := snd (demo_create None (Some 30)) in
  let r1 := resolveShortcode demo_now demo_now "abcdef" w1 in
  let r2 := resolveShortcode demo_now demo_now "abcdef" (snd r1) in
  map accessCount (storage w1) = [0]
  /\ map expiresAt (storage w1) = [IsoString (demo_now + 1800000)]
  /\ fst r1 = Resolved demo_url
  /\ map accessCount (storage (snd r1)) = [1]
  /\ fst r2 = Resolved demo_url
  /\ map accessCount (storage (snd r2)) = [2].
Proof. repeat split; reflexivity. Qed.

(** When the clock moves between the sweep and the check, the expired
    branch of resolve is taken. *)
Example expired_branch_between_readings :
  fst (resolveShortcode (demo_now + 59999) (demo_now + 60000) "xyz"
         demo_world) = Expired.
Proof. reflexivity. Qed.

(** * Further properties of the service and of its callers *)

(** ** The alphabet *)

Lemma isAlnum_existsb_chars c :
  existsb (Ascii.eqb c) (list_ascii_of_string chars) = isAlnum c.
Proof. destruct c as [[] [] [] [] [] [] [] []]; reflexivity. Qed.

(** X1: the character class of the format check and the alphabet of the
    generator are the same set of characters. *)
Theorem isAlnum_iff_in_chars c :
  isAlnum c = true <-> In c (list_ascii_of_string chars).
Proof.
  rewrite <- isAlnum_existsb_chars, existsb_exists. split.
  - intros (x & Hx & E). apply Ascii.eqb_eq in E. now subst.
  - intros H. exists c. split; [exact H|apply Ascii.eqb_refl].
Qed.

Lemma charAt_chars i :
  (i < 62)%nat ->
  exists c, charAt chars i = String c EmptyString /\ isAlnum c = true.
Proof.
  intros H.
  do 62 (destruct i as [|i]; [eexists; split; reflexivity|]).
  lia.
Qed.

Lemma length_append_one s c :
  String.length (s ++ String c EmptyString) = S (String.length s).
Proof. induction s as [|a s IH]; simpl; [reflexivity|now rewrite IH]. Qed.

Lemma list_ascii_append_one s c :
  list_ascii_of_string (s ++ String c EmptyString)
  = (list_ascii_of_string s ++ [c])%list.
Proof. induction s as [|a s IH]; simpl; [reflexivity|now rewrite IH]. Qed.

Section GeneratedCodes.

Variable randomIndex : nat -> nat.
Hypothesis randomIndex_lt : forall k, (randomIndex k < 62)%nat.

Lemma generateLoop_shape n : forall k result,
  String.length (generateLoop randomIndex n k result)
  = (String.length result + n)%nat
  /\ (forallb isAlnum (list_ascii_of_string result) = true ->
      forallb isAlnum
        (list_ascii_of_string (generateLoop randomIndex n k result)) = true).
Proof.
  induction n as [|n IH]; intros k result; simpl.
  - split; [lia|auto].
  - destruct (charAt_chars (randomIndex k) (randomIndex_lt k))
      as (c & -> & Hc).
    destruct (IH (S k) (result ++ String c EmptyString)%string) as [L A].
    split.
    + rewrite L, length_append_one. lia.
    + intros Hr. apply A. rewrite list_ascii_append_one, forallb_app, Hr.
      simpl. now rewrite Hc.
Qed.

Lemma generateShortcode_valid k :
  isValidShortcode (fst (generateShortcode randomIndex k)) = true
  /\ String.length (fst (generateShortcode randomIndex k)) = 6%nat.
Proof.
  unfold generateShortcode. cbn [fst].
  destruct (generateLoop_shape 6 k EmptyString) as [L A].
  split; [|exact L].
  unfold isValidShortcode. rewrite L, (A eq_refl). reflexivity.
Qed.

Lemma generateFresh_valid fuel mappings : forall k code k',
  generateFresh randomIndex fuel mappings k = Some (code, k') ->
  isValidShortcode code = true
  /\ String.length code = 6%nat
  /\ exists tries, (0 < tries <= fuel)%nat /\ k' = (k + 6 * tries)%nat.
Proof.
  induction fuel as [|fuel IH]; intros k code k' H; [discriminate|].
  rewrite generateFresh_step in H.
  destruct (existsb (hasCode (attempt randomIndex k 0)) mappings) eqn:E.
  - destruct (IH _ _ _ H) as (V & L & tries & Ht & ->).
    split; [exact V|]. split; [exact L|]. exists (S tries). lia.
  - inversion H; subst. unfold attempt.
    destruct (generateShortcode_valid (k + 6 * 0)) as [V L].
    split; [exact V|]. split; [exact L|]. exists 1%nat. lia.
Qed.

End GeneratedCodes.

(** X2: whenever every draw is an index into the 62 characters, a call of
    create without a custom code that returns hands out a code of
    exactly 6 characters that passes the format check of custom codes
    and that no record left by the sweep carries, and it has called the
    random source 6 times per try. *)
Theorem generated_code_is_well_formed
  url_parses BASE_URL randomIndex fuel tSweep tNow tCreated u v w resp w' :
  (forall k, (randomIndex k < 62)%nat) ->
  shortenUrl url_parses BASE_URL randomIndex fuel tSweep tNow tCreated
    (ShortenUrlRequest.make u None v) w = (Returned resp, w') ->
  let code := ShortenUrlResponse.shortcode resp in
  String.length code = 6%nat
  /\ isValidShortcode code = true
  /\ (forall m, In m (storage w) -> live tSweep m = true ->
                shortcode m <> code)
  /\ exists tries,
       (0 < tries <= fuel)%nat
       /\ randomCalls w' = (randomCalls w + 6 * tries)%nat.
Proof.
  intros Hlt H code. subst code.
  unfold shortenUrl, isValidUrl in H.
  cbn [ShortenUrlRequest.originalUrl ShortenUrlRequest.customShortcode truthy]
    in H.
  destruct (url_parses u); cbn [negb] in H; [|discriminate].
  rewrite cleanExpiredMappings_filter in H.
  destruct (generateFresh _ _ _ _) as [[code k]|] eqn:G; [|discriminate].
  unfold store in H. inversion H; subst; clear H.
  cbn [ShortenUrlResponse.shortcode randomCalls].
  destruct (generateFresh_valid randomIndex Hlt _ _ _ _ _ G)
    as (V & L & tries & Ht & ->).
  split; [exact L|]. split; [exact V|]. split; [|eauto].
  intros m Hin Hlive. apply hasCode_false.
  apply (proj1 (existsb_false_iff _ _)
           (generateFresh_sound randomIndex _ _ _ _ _ G)).
  apply filter_In. tauto.
Qed.

Lemma demo_random62_lt k : (demo_random62 k < 62)%nat.
Proof. unfold demo_random62. apply Nat.mod_upper_bound. discriminate. Qed.

Lemma generated_code_is_well_formed_witness :
  exists resp w',
    shortenUrl demo_parses demo_origin demo_random62 1
      demo_now demo_now demo_now (demo_request None None) init
    = (Returned resp, w')
    /\ String.length (ShortenUrlResponse.shortcode resp) = 6%nat
    /\ isValidShortcode (ShortenUrlResponse.shortcode resp) = true.
Proof.
  eexists. eexists. split; [reflexivity|].
  destruct (generated_code_is_well_formed demo_parses demo_origin
              demo_random62 1 demo_now demo_now demo_now demo_url None init
              _ _ demo_random62_lt eq_refl) as (L & V & _).
  split; [exact L|exact V].
Defined.

(** ** Dates and the sweep *)

(** X3: A Date written to the store and read back is the same Date when
    its time value is within 8.64e15 ms of the epoch; any other time
    value makes an invalid Date, which comes back as the epoch. *)
Theorem stored_date_round_trip tv :
  parseDate (toJSON (newDate tv))
  = if Z.abs tv <=? maxTimeValue then newDate tv else ValidDate 0.
Proof.
  destruct (Z.abs tv <=? maxTimeValue) eqn:E.
  - apply Z.leb_le in E. rewrite stored_date_in_range by exact E.
    symmetry. now apply newDate_in_range.
  - apply Z.leb_gt in E. now apply stored_date_out_of_range.
Qed.

Lemma live_max t1 t2 m : live (Z.max t1 t2) m = live t1 m && live t2 m.
Proof.
  unfold live. destruct (parseDate (expiresAt m)) as [tv|]; simpl;
    [|reflexivity].
  destruct (t1 <? tv) eqn:E1, (t2 <? tv) eqn:E2; simpl;
    rewrite ?Z.ltb_lt, ?Z.ltb_ge in *; lia.
Qed.

(** X4: two sweeps in a row, in either order, leave what one sweep at the
    later of the two times leaves: a record that is live at some time
    is live at every earlier time. *)
Theorem sweeps_compose t1 t2 st :
  cleanExpiredMappings t2 (cleanExpiredMappings t1 st)
  = cleanExpiredMappings (Z.max t1 t2) st
  /\ (forall m, live (Z.max t1 t2) m = true -> live t1 m = true).
Proof.
  split.
  - rewrite !cleanExpiredMappings_filter, filter_filter_andb.
    apply filter_ext. intros m. symmetry. apply live_max.
  - intros m. rewrite live_max. intros H. apply andb_true_iff in H. tauto.
Qed.

Lemma sweeps_compose_witness :
  cleanExpiredMappings (demo_now + 60000)
    (cleanExpiredMappings demo_now (storage demo_world)) = []
  /\ live demo_now (demo_record "xyz" (demo_now + 60000)) = true.
Proof.
  destruct (sweeps_compose demo_now (demo_now - 5) (storage demo_world))
    as [_ Hearlier].
  destruct (sweeps_compose demo_now (demo_now + 60000) (storage demo_world))
    as [Hboth _].
  split.
  - rewrite Hboth. reflexivity.
  - apply Hearlier. reflexivity.
Defined.

(** X5: list() returns the records whose expiry is after now, and only
    those, in the order of the store; the store afterwards is the
    returned list, whether or not the sweep had anything to save. *)
Theorem list_returns_the_live_records now w :
  fst (getAllMappings now w) = filter (live now) (storage w)
  /\ storage (snd (getAllMappings now w)) = fst (getAllMappings now w)
  /\ randomCalls (snd (getAllMappings now w)) = randomCalls w
  /\ (forall m, In m (fst (getAllMappings now w))
                <-> In m (storage w) /\ live now m = true)
  /\ (forall m, In m (fst (getAllMappings now w)) ->
                isExpired (expiresAt m) now = false).
Proof.
  unfold getAllMappings. cbn [fst snd storage randomCalls].
  rewrite cleanExpiredMappings_filter.
  split; [reflexivity|]. split; [reflexivity|]. split; [reflexivity|].
  split.
  - intros m. apply filter_In.
  - intros m Hm. apply filter_In in Hm. destruct Hm as [_ Hl].
    now apply date_gt_not_le.
Qed.

Lemma list_returns_the_live_records_witness :
  map shortcode (fst (getAllMappings demo_now demo_world))
  = ["xyz"%string; "abc"%string]
  /\ isExpired (IsoString (demo_now + 60000)) demo_now = false.
Proof.
  destruct (list_returns_the_live_records demo_now demo_world)
    as (Hlist & _ & _ & _ & Hfresh).
  split.
  - rewrite Hlist. reflexivity.
  - apply (Hfresh (demo_record "xyz" (demo_now + 60000))).
    rewrite Hlist. left. reflexivity.
Defined.

(** ** Invariants of the reachable stores *)

Lemma map_shortcode_updateFirst p l :
  map shortcode (updateFirst p increment l) = map shortcode l.
Proof.
  induction l as [|m l IH]; simpl; [reflexivity|].
  destruct (p m); simpl; [reflexivity|now rewrite IH].
Qed.

Lemma NoDup_map_filter {A B} (f : A -> B) (p : A -> bool) l :
  NoDup (map f l) -> NoDup (map f (filter p l)).
Proof.
  induction l as [|a l IH]; simpl; intros H; [constructor|].
  inversion H as [|x xs Hnotin Hnd]; subst.
  destruct (p a); simpl; [|auto].
  constructor; [|auto].
  intros Hin. apply Hnotin. apply in_map_iff in Hin.
  destruct Hin as (b & Hb & Hin). apply filter_In in Hin.
  apply in_map_iff. exists b. tauto.
Qed.

Lemma NoDup_map_push st new :
  NoDup (map shortcode st) ->
  existsb (hasCode (shortcode new)) st = false ->
  NoDup (map shortcode (st ++ [new])).
Proof.
  intros Hnd Hf. rewrite map_app. simpl.
  apply NoDup_app; [exact Hnd|repeat constructor; intros []|].
  intros c Hc [<-|[]]. apply in_map_iff in Hc. destruct Hc as (m & Hm & Hin).
  apply (proj1 (existsb_false_iff _ _) Hf) in Hin.
  apply hasCode_false in Hin. contradiction.
Qed.

(** X6: No two records of a reachable store share a shortcode, live or
    expired: each operation keeps the shortcodes of the store distinct,
    and the empty store has none. *)
Theorem stored_codes_are_distinct url_parses BASE_URL randomIndex :
  (forall op w,
      NoDup (map shortcode (storage w)) ->
      NoDup (map shortcode
               (storage (run url_parses BASE_URL randomIndex op w))))
  /\ (forall w,
        reachable url_parses BASE_URL randomIndex w ->
        NoDup (map shortcode (storage w))).
Proof.
  assert (Hstep : forall op w,
             NoDup (map shortcode (storage w)) ->
             NoDup (map shortcode
                      (storage (run url_parses BASE_URL randomIndex op w)))).
  { intros op w H.
    destruct op as [fuel t0 t1 t2 request|t0 t1 code|now|code]; cbn [run].
    - destruct (shortenUrl_storage url_parses BASE_URL randomIndex
                  fuel t0 t1 t2 request w) as [| |code Hf].
      + exact H.
      + now apply NoDup_map_filter.
      + apply NoDup_map_push; [now apply NoDup_map_filter|exact Hf].
    - destruct (resolveShortcode_storage t0 t1 code w) as [-> | ->].
      + now apply NoDup_map_filter.
      + rewrite map_shortcode_updateFirst. now apply NoDup_map_filter.
    - unfold getAllMappings. cbn [snd storage].
      rewrite cleanExpiredMappings_filter. now apply NoDup_map_filter.
    - rewrite deleteMappingByShortcode_storage. now apply NoDup_map_filter. }
  split; [exact Hstep|].
  intros w R. induction R as [|op w R IH]; [constructor|now apply Hstep].
Qed.

Lemma stored_codes_are_distinct_witness :
  NoDup (map shortcode
           (storage
              (run demo_parses demo_origin demo_random
                 (OpCreate 1 demo_now demo_now demo_now
                    (demo_request None None))
                 (snd (demo_create (Some "abc"%string) None))))).
Proof.
  apply (proj2 (stored_codes_are_distinct demo_parses demo_origin demo_random)).
  apply reachable_run.
  apply (reachable_run demo_parses demo_origin demo_random
           (OpCreate 1 demo_now demo_now demo_now
              (demo_request (Some "abc"%string) None)) init).
  apply reachable_init.
Defined.

Section WellFormed.

Variable url_parses : string -> bool.
Variable BASE_URL : string.
Variable randomIndex : nat -> nat.
Hypothesis randomIndex_lt : forall k, (randomIndex k < 62)%nat.

Local Abbreviation wf := (wellFormed url_parses).

Lemma wellFormed_filter p st : Forall wf st -> Forall wf (filter p st).
Proof.
  intros H. apply Forall_forall. intros m Hm. apply filter_In in Hm.
  exact (proj1 (Forall_forall _ _) H m (proj1 Hm)).
Qed.

Lemma wellFormed_increment m : wf m -> wf (increment m).
Proof.
  intros (Hc & Hu & Hn & Ht). repeat split; simpl; auto.
  pose proof (numberSucc_ge (accessCount m)). lia.
Qed.

Lemma wellFormed_updateFirst p st :
  Forall wf st -> Forall wf (updateFirst p increment st).
Proof.
  induction 1 as [|m st Hm Hst IH]; simpl; [constructor|].
  destruct (p m); constructor; auto using wellFormed_increment.
Qed.

Lemma wellFormed_newMapping tNow tCreated request code :
  isValidShortcode code = true ->
  url_parses (ShortenUrlRequest.originalUrl request) = true ->
  wf (newMapping tNow tCreated request code).
Proof.
  intros Hc Hu. repeat split; simpl; auto; [lia|eauto].
Qed.

Lemma run_wellFormed op w :
  Forall wf (storage w) ->
  Forall wf (storage (run url_parses BASE_URL randomIndex op w)).
Proof.
  intros H. destruct op as [fuel t0 t1 t2 request|t0 t1 code|now|code];
    cbn [run].
  - unfold shortenUrl, isValidUrl, store.
    rewrite cleanExpiredMappings_filter.
    destruct (url_parses _) eqn:Hu; cbn [negb snd storage]; [|exact H].
    destruct (truthy _) as [code|].
    + destruct (isValidShortcode code) eqn:Hc; cbn [negb snd storage];
        [|now apply wellFormed_filter].
      destruct (existsb _ _); cbn [snd storage];
        [now apply wellFormed_filter|].
      apply Forall_app. split; [now apply wellFormed_filter|].
      apply Forall_cons; [|constructor].
      now apply wellFormed_newMapping.
    + destruct (generateFresh _ _ _ _) as [[code k]|] eqn:G;
        cbn [snd storage]; [|now apply wellFormed_filter].
      apply Forall_app. split; [now apply wellFormed_filter|].
      apply Forall_cons; [|constructor].
      apply wellFormed_newMapping; [|exact Hu].
      exact (proj1 (generateFresh_valid randomIndex randomIndex_lt
                      _ _ _ _ _ G)).
  - destruct (resolveShortcode_storage t0 t1 code w) as [-> | ->].
    + now apply wellFormed_filter.
    + now apply wellFormed_updateFirst, wellFormed_filter.
  - unfold getAllMappings. cbn [snd storage].
    rewrite cleanExpiredMappings_filter. now apply wellFormed_filter.
  - rewrite deleteMappingByShortcode_storage. now apply wellFormed_filter.
Qed.

End WellFormed.

(** X7: whenever every draw is an index into the 62 characters, every
    record of every reachable store has a shortcode of 3 to 10
    alphanumeric characters, an original URL that the parser accepts, a
    creation time, and an access count that is not negative. *)
Theorem reachable_records_are_well_formed url_parses BASE_URL randomIndex w :
  (forall k, (randomIndex k < 62)%nat) ->
  reachable url_parses BASE_URL randomIndex w ->
  Forall (wellFormed url_parses) (storage w).
Proof.
  intros Hlt R. induction R as [|op w R IH]; [constructor|].
  now apply run_wellFormed.
Qed.

Lemma reachable_records_are_well_formed_witness :
  Forall (wellFormed demo_parses)
    (storage
       (run demo_parses demo_origin demo_random62
          (OpResolve demo_now demo_now "abc")
          (run demo_parses demo_origin demo_random62
             (OpCreate 1 demo_now demo_now demo_now
                (demo_request (Some "abc"%string) None)) init))).
Proof.
  apply (reachable_records_are_well_formed
           demo_parses demo_origin demo_random62);
    [exact demo_random62_lt|].
  apply reachable_run, reachable_run, reachable_init.
Defined.

(** ** resolve *)

(** X8: whatever the two readings of the clock, resolve hands out a URL
    only of a stored record that carries the code and whose expiry is
    after both readings; when it answers null the store is left as the
    sweep left it, with no count changed; it never changes the number of
    live records nor draws a random number. *)
Theorem resolve_serves_only_live tSweep tCheck code w :
  let r := resolveShortcode tSweep tCheck code w in
  (forall url, fst r = Resolved url ->
     exists m, In m (storage w) /\ shortcode m = code
               /\ originalUrl m = url
               /\ live tSweep m = true /\ live tCheck m = true)
  /\ (returned (fst r) = None ->
      storage (snd r) = filter (live tSweep) (storage w))
  /\ List.length (storage (snd r))
     = List.length (filter (live tSweep) (storage w))
  /\ randomCalls (snd r) = randomCalls w.
Proof.
  unfold resolveShortcode. rewrite cleanExpiredMappings_filter.
  destruct (find _ _) as [m|] eqn:F; cbn [fst snd storage randomCalls].
  - apply find_some in F. destruct F as [Hin Hc].
    apply filter_In in Hin. destruct Hin as [Hin Hl].
    apply hasCode_true in Hc.
    destruct (date_le _ _) eqn:E; cbn [fst snd storage randomCalls returned].
    + split; [discriminate|]. repeat split.
    + split.
      * intros url Hu. inversion Hu; subst. exists m.
        repeat split; auto. now apply (not_expired_live tSweep).
      * split; [discriminate|]. split; [|reflexivity].
        rewrite <- (length_map shortcode), map_shortcode_updateFirst.
        apply length_map.
  - split; [discriminate|]. repeat split.
Qed.

Lemma resolve_serves_only_live_witness :
  (exists m, In m (storage demo_world) /\ shortcode m = "abc"%string
             /\ originalUrl m = demo_url
             /\ live demo_now m = true /\ live (demo_now + 5) m = true)
  /\ storage (snd (resolveShortcode demo_now demo_now "nope" demo_world))
     = filter (live demo_now) (storage demo_world).
Proof.
  destruct (resolve_serves_only_live demo_now (demo_now + 5) "abc" demo_world)
    as (Hhit & _).
  destruct (resolve_serves_only_live demo_now demo_now "nope" demo_world)
    as (_ & Hmiss & _).
  split.
  - apply Hhit. reflexivity.
  - apply Hmiss. reflexivity.
Defined.

(** X9: in a store with at most one live mapping per shortcode, resolves
    of the shortcode of a mapping in a row, each with its own two
    readings of the clock at which the mapping is live, all return its
    URL, and n of them raise its accessCount by exactly n, as long as
    the count stays within 2^53, and change none of its other four
    fields. *)
Theorem resolve_n_times_counts_n readings code w m :
  atMostOneLive (storage w) ->
  In m (storage w) -> shortcode m = code ->
  Forall (fun r => live (fst r) m = true /\ live (snd r) m = true) readings ->
  - twoTo53 <= accessCount m ->
  accessCount m + Z.of_nat (List.length readings) <= twoTo53 ->
  fst (resolveTimes readings code w)
  = repeat (Resolved (originalUrl m)) (List.length readings)
  /\ exists m',
       In m' (storage (snd (resolveTimes readings code w)))
       /\ sameIdentity m m'
       /\ accessCount m' = accessCount m + Z.of_nat (List.length readings).
Proof.
  revert w m.
  induction readings as [|[tSweep tCheck] rest IH];
    intros w m Hinv Hin Hcode Hall Hlow Hhigh.
  - split; [reflexivity|]. exists m.
    split; [exact Hin|]. split; [apply sameIdentity_refl|simpl; lia].
  - inversion Hall as [|r rs [Hl1 Hl2] Hrest]; subst.
    cbn [fst snd] in Hl1, Hl2. cbn [List.length] in Hhigh.
    destruct (live_unique_shape tSweep _ _ m Hinv Hin Hl1 eq_refl)
      as (l1 & l2 & E & H1).
    pose proof (resolveShortcode_hit_shape tSweep tCheck _ w l1 m l2
                  E H1 eq_refl Hl2) as Hres.
    assert (Hm : hasCode (shortcode m) m = true) by now apply hasCode_true.
    destruct (find_middle (hasCode (shortcode m)) increment l1 m l2 H1 Hm)
      as [_ U].
    assert (Hnext : accessCount (increment m) = accessCount m + 1).
    { apply numberSucc_exact. lia. }
    destruct (IH {| storage := l1 ++ increment m :: l2;
                    randomCalls := randomCalls w |} (increment m))
      as (Hfst & m' & Hin' & (I1 & I2 & I3 & I4) & Hcount).
    + cbn [storage]. rewrite <- U, <- E.
      now apply atMostOneLive_updateFirst, atMostOneLive_filter.
    + cbn [storage]. apply in_or_app. right. now left.
    + reflexivity.
    + eapply Forall_impl; [|exact Hrest]. intros r H. exact H.
    + lia.
    + lia.
    + cbn [resolveTimes]. rewrite Hres.
      destruct (resolveTimes rest (shortcode m) _) as [results w2].
      cbn [fst snd List.length repeat] in *.
      split; [now rewrite Hfst|].
      exists m'. split; [exact Hin'|]. split.
      * repeat split; simpl in *; congruence.
      * lia.
Qed.

Lemma resolve_n_times_counts_n_witness :
  fst (resolveTimes [(demo_now, demo_now + 1); (demo_now + 5, demo_now + 5);
                     (demo_now + 10, demo_now + 20)] "xyz" demo_pair)
  = [Resolved demo_url; Resolved demo_url; Resolved demo_url]
  /\ exists m',
       In m' (storage
                (snd (resolveTimes
                        [(demo_now, demo_now + 1);
                         (demo_now + 5, demo_now + 5);
                         (demo_now + 10, demo_now + 20)] "xyz" demo_pair)))
       /\ shortcode m' = "xyz"%string
       /\ accessCount m' = 3.
Proof.
  destruct (resolve_n_times_counts_n
              [(demo_now, demo_now + 1); (demo_now + 5, demo_now + 5);
               (demo_now + 10, demo_now + 20)] "xyz" demo_pair
              (demo_record "xyz" (demo_now + 60000)))
    as (Hall & m' & Hin & (Hc & _) & Hn).
  - apply distinct_codes_atMostOneLive.
    repeat constructor; simpl; intuition discriminate.
  - left. reflexivity.
  - reflexivity.
  - repeat constructor.
  - vm_compute. discriminate.
  - vm_compute. discriminate.
  - split; [exact Hall|].
    exists m'. split; [exact Hin|]. split; [exact Hc|exact Hn].
Defined.

(** ** create, and what follows it *)







(** X12: a create that throws stores nothing and draws no random number:
    on InvalidUrlError the store is not even swept, on the other two
    errors it holds the records that were live. Each error has its one
    cause: the parser rejects the URL; a non-empty custom code fails
    the format check; a well-formed custom code is carried by a live
    record. *)
Theorem failed_create_stores_nothing
  url_parses BASE_URL randomIndex fuel tSweep tNow tCreated request w e w' :
  shortenUrl url_parses BASE_URL randomIndex fuel tSweep tNow tCreated
    request w = (Thrown e, w') ->
  randomCalls w' = randomCalls w
  /\ (forall m, In m (storage w') -> In m (storage w))
  /\ match e with
     | InvalidUrlError =>
         w' = w
         /\ url_parses (ShortenUrlRequest.originalUrl request) = false
     | InvalidCodeFormatError =>
         storage w' = filter (live tSweep) (storage w)
         /\ url_parses (ShortenUrlRequest.originalUrl request) = true
         /\ exists c,
              truthy (ShortenUrlRequest.customShortcode request) = Some c
              /\ isValidShortcode c = false
     | CodeTakenError =>
         storage w' = filter (live tSweep) (storage w)
         /\ url_parses (ShortenUrlRequest.originalUrl request) = true
         /\ exists c m,
              truthy (ShortenUrlRequest.customShortcode request) = Some c
              /\ isValidShortcode c = true
              /\ In m (storage w) /\ live tSweep m = true
              /\ shortcode m = c
     end.
Proof.
  unfold shortenUrl, isValidUrl, store.
  rewrite cleanExpiredMappings_filter.
  destruct (url_parses _) eqn:Hu; cbn [negb].
  - destruct (truthy _) as [c|] eqn:Hc.
    + destruct (isValidShortcode c) eqn:Hv; cbn [negb].
      * destruct (existsb _ _) eqn:E; [|discriminate].
        intros H. inversion H; subst; clear H. cbn [storage randomCalls].
        split; [reflexivity|]. split.
        { intros m Hm. apply filter_In in Hm. tauto. }
        split; [reflexivity|]. split; [reflexivity|].
        apply existsb_exists in E. destruct E as (m & Hm & Hcode).
        apply filter_In in Hm. apply hasCode_true in Hcode.
        exists c, m. tauto.
      * intros H. inversion H; subst; clear H. cbn [storage randomCalls].
        split; [reflexivity|]. split.
        { intros m Hm. apply filter_In in Hm. tauto. }
        split; [reflexivity|]. split; [reflexivity|]. eauto.
    + destruct (generateFresh _ _ _ _) as [[code k]|]; discriminate.
  - intros H. inversion H; subst; clear H. auto.
Qed.

Lemma failed_create_stores_nothing_witness :
  snd (shortenUrl demo_parses demo_origin demo_random 1
         demo_now demo_now demo_now
         (ShortenUrlRequest.make "not a url" (Some "a-b"%string) None)
         demo_world)
  = demo_world.
Proof.
  destruct (failed_create_stores_nothing demo_parses demo_origin demo_random 1
              demo_now demo_now demo_now
              (ShortenUrlRequest.make "not a url" (Some "a-b"%string) None)
              demo_world InvalidUrlError _ eq_refl)
    as (_ & _ & Hsame & _).
  exact Hsame.
Defined.

(** ** delete, and what follows it *)

(** X13: after delete(c) no record carries c: at any time resolve(c) does
    not find it, a second delete(c) returns false and changes nothing,
    and a create with c as a well-formed custom code returns with that
    shortcode. *)
Theorem delete_frees_the_code code w :
  let w' := snd (deleteMappingByShortcode code w) in
  (forall tSweep tCheck,
      fst (resolveShortcode tSweep tCheck code w') = NotFound)
  /\ deleteMappingByShortcode code w' = (false, w')
  /\ (forall url_parses BASE_URL randomIndex fuel tSweep tNow tCreated u v,
        url_parses u = true ->
        isValidShortcode code = true ->
        exists resp w'',
          shortenUrl url_parses BASE_URL randomIndex fuel
            tSweep tNow tCreated (ShortenUrlRequest.make u (Some code) v) w'
          = (Returned resp, w'')
          /\ ShortenUrlResponse.shortcode resp = code).
Proof.
  intros w'.
  assert (Hgone : forall m, In m (storage w') -> hasCode code m = false).
  { intros m Hm. subst w'. rewrite deleteMappingByShortcode_storage in Hm.
    apply filter_In in Hm. now apply negb_true_iff. }
  split; [|split].
  - intros tSweep tCheck. unfold resolveShortcode.
    rewrite cleanExpiredMappings_filter, find_none_existsb; [reflexivity|].
    apply existsb_false_iff. intros m Hm. apply filter_In in Hm.
    now apply Hgone.
  - unfold deleteMappingByShortcode at 1.
    rewrite filter_all, Nat.eqb_refl; [reflexivity|].
    intros m Hm. apply negb_true_iff. now apply Hgone.
  - intros url_parses BASE_URL randomIndex fuel tSweep tNow tCreated u v
      Hu Hc.
    rewrite (shortenUrl_custom url_parses BASE_URL randomIndex fuel
               tSweep tNow tCreated (ShortenUrlRequest.make u (Some code) v)
               code w' Hu (truthy_valid code Hc) Hc).
    + unfold store. eauto.
    + apply existsb_false_iff. intros m Hm. apply filter_In in Hm.
      now apply Hgone.
Qed.

Lemma delete_frees_the_code_witness :
  exists resp w'',
    shortenUrl demo_parses demo_origin demo_random 1
      demo_now demo_now demo_now (demo_request (Some "abc"%string) None)
      (snd (deleteMappingByShortcode "abc" demo_world))
    = (Returned resp, w'')
    /\ ShortenUrlResponse.shortcode resp = "abc"%string.
Proof.
  apply (delete_frees_the_code "abc" demo_world); reflexivity.
Defined.

(** X14: a create that returns, followed by a delete of the shortcode it
    returned: the delete answers true and the store holds exactly the
    records that were live when the create swept it. *)
Theorem create_then_delete
  url_parses BASE_URL randomIndex fuel tSweep tNow tCreated request w
  resp w' :
  shortenUrl url_parses BASE_URL randomIndex fuel tSweep tNow tCreated
    request w = (Returned resp, w') ->
  deleteMappingByShortcode (ShortenUrlResponse.shortcode resp) w'
  = (true, {| storage := filter (live tSweep) (storage w);
              randomCalls := randomCalls w' |}).
Proof.
  intros H.
  apply shortenUrl_returned in H. destruct H as (code & k & _ & Hf & H).
  unfold store in H. inversion H; subst; clear H.
  cbn [ShortenUrlResponse.shortcode]. unfold deleteMappingByShortcode.
  cbn [storage randomCalls].
  rewrite filter_app. cbn [filter].
  assert (hasCode code (newMapping tNow tCreated request code) = true) as ->
      by now apply hasCode_true.
  cbn [negb]. rewrite app_nil_r, filter_all.
  - rewrite length_app. cbn [List.length].
    destruct (Nat.eqb_spec (List.length (filter (live tSweep) (storage w)))
                (List.length (filter (live tSweep) (storage w)) + 1));
      [lia|reflexivity].
  - intros m Hm. apply negb_true_iff.
    exact (proj1 (existsb_false_iff _ _) Hf m Hm).
Qed.

Lemma create_then_delete_witness :
  deleteMappingByShortcode "abcdef" (snd (demo_create None None))
  = (true, {| storage := []; randomCalls := 6 |}).
Proof.
  apply (create_then_delete demo_parses demo_origin demo_random 1
           demo_now demo_now demo_now (demo_request None None) init
           _ _ eq_refl).
Defined.

(** ** The redirect view *)

Lemma resolveShortcode_hit tSweep tCheck code w url :
  fst (resolveShortcode tSweep tCheck code w) = Resolved url ->
  exists m, In m (storage w) /\ shortcode m = code /\ originalUrl m = url
            /\ live tSweep m = true /\ live tCheck m = true.
Proof.
  unfold resolveShortcode. rewrite cleanExpiredMappings_filter.
  destruct (find _ _) as [m|] eqn:F; cbn [fst]; [|discriminate].
  apply find_some in F. destruct F as [Hin Hc].
  apply filter_In in Hin. destruct Hin as [Hin Hl].
  apply hasCode_true in Hc.
  destruct (date_le _ _) eqn:E; cbn [fst]; [discriminate|].
  intros Hu. inversion Hu; subst. exists m.
  repeat split; auto. now apply (not_expired_live tSweep).
Qed.

Lemma truthy_some s x : truthy s = Some x -> s = Some x /\ x <> EmptyString.
Proof.
  destruct s as [[|c s]|]; simpl; try discriminate.
  intros H. inversion H; subst. split; [reflexivity|discriminate].
Qed.

(** X16: the redirect view sends the browser only to a non-empty original
    URL of a stored record that carries the shortcode of the route and
    whose expiry is after both readings of the clock, and then its
    status is 'redirecting'; without a shortcode in the route it shows
    'No shortcode provided' and leaves the store alone. *)
Theorem redirect_goes_to_a_live_mapping tSweep tCheck route w :
  let r := handleRedirect tSweep tCheck route w in
  (forall url, RedirectView.href (fst r) = Some url ->
     RedirectView.status (fst r) = Status.redirecting
     /\ url <> EmptyString
     /\ exists code m,
          route = Some code /\ In m (storage w) /\ shortcode m = code
          /\ originalUrl m = url
          /\ live tSweep m = true /\ live tCheck m = true)
  /\ (RedirectView.href (fst r) = None ->
      RedirectView.status (fst r) <> Status.redirecting)
  /\ (truthy route = None ->
      r = (RedirectView.make Status.error "No shortcode provided" None, w)).
Proof.
  unfold handleRedirect.
  destruct (truthy route) as [code|] eqn:T.
  - apply truthy_some in T. destruct T as [-> Hne].
    destruct (resolveShortcode tSweep tCheck code w) as [res w1] eqn:R.
    destruct (truthy (returned res)) as [u|] eqn:U;
      cbn [fst RedirectView.href RedirectView.status].
    + split; [|split; [discriminate|discriminate]].
      intros url Hurl. inversion Hurl; subst.
      apply truthy_some in U. destruct U as [U Hu].
      split; [reflexivity|]. split; [exact Hu|].
      destruct res; try discriminate. inversion U; subst.
      destruct (resolveShortcode_hit tSweep tCheck code w url) as (m & Hm);
        [now rewrite R|].
      exists code, m. tauto.
    + split; [discriminate|]. split; [discriminate|discriminate].
  - cbn [fst RedirectView.href RedirectView.status].
    split; [discriminate|]. split; [discriminate|reflexivity].
Qed.

Lemma redirect_goes_to_a_live_mapping_witness :
  handleRedirect demo_now demo_now None demo_world
  = (RedirectView.make Status.error "No shortcode provided" None, demo_world)
  /\ RedirectView.status
       (fst (handleRedirect demo_now demo_now (Some "abc"%string) demo_world))
     = Status.redirecting.
Proof.
  destruct (redirect_goes_to_a_live_mapping demo_now demo_now None demo_world)
    as (_ & _ & Hnone).
  destruct (redirect_goes_to_a_live_mapping demo_now demo_now
              (Some "abc"%string) demo_world) as (Hsome & _).
  split.
  - apply Hnone. reflexivity.
  - apply (Hsome demo_url). reflexivity.
Defined.




(** ** The form and list view *)

Section Form.

Variable url_parses : string -> bool.
Variable BASE_URL : string.
Variable randomIndex : nat -> nat.

Local Abbreviation shortenUrl := (shortenUrl url_parses BASE_URL randomIndex).
Local Abbreviation handleSubmit :=
  (handleSubmit url_parses BASE_URL randomIndex).

Lemma handleSubmit_returned fuel tSweep tNow tCreated tList view w resp w1 :
  shortenUrl fuel tSweep tNow tCreated (formRequest view) w
  = (Returned resp, w1) ->
  handleSubmit fuel tSweep tNow tCreated tList view w
  = (Some
       (UrlShortener.make EmptyString EmptyString 30 false EmptyString
          ("URL shortened successfully! Short URL: "
           ++ ShortenUrlResponse.shortUrl resp)
          (filter (live tList) (storage w1))),
     {| storage := filter (live tList) (storage w1);
        randomCalls := randomCalls w1 |}).
Proof.
  intros H. unfold handleSubmit. rewrite H.
  unfold loadExistingUrls, getAllMappings.
  rewrite cleanExpiredMappings_filter. reflexivity.
Qed.

End Form.

(** X18: a submit whose create returns resets the three fields of the form,
    shows the short link, and reloads the list from the store: the
    list is the store, holds no record that is expired at the reload,
    and ends with the new record whenever that record is live at the
    reload. *)
Theorem submit_shows_the_new_mapping
  url_parses BASE_URL randomIndex fuel tSweep tNow tCreated tList view w
  resp w1 :
  shortenUrl url_parses BASE_URL randomIndex fuel tSweep tNow tCreated
    (formRequest view) w = (Returned resp, w1) ->
  let new :=
    newMapping tNow tCreated (formRequest view)
      (ShortenUrlResponse.shortcode resp) in
  exists view' w2,
    handleSubmit url_parses BASE_URL randomIndex fuel
      tSweep tNow tCreated tList view w = (Some view', w2)
    /\ UrlShortener.originalUrl view' = EmptyString
    /\ UrlShortener.customShortcode view' = EmptyString
    /\ UrlShortener.validityMinutes view' = 30
    /\ UrlShortener.isLoading view' = false
    /\ UrlShortener.error view' = EmptyString
    /\ UrlShortener.success view'
       = ("URL shortened successfully! Short URL: "
          ++ BASE_URL ++ "/" ++ ShortenUrlResponse.shortcode resp)%string
    /\ storage w2 = UrlShortener.shortenedUrls view'
    /\ (forall m, In m (UrlShortener.shortenedUrls view') ->
                  isExpired (expiresAt m) tList = false)
    /\ (live tList new = true ->
        UrlShortener.shortenedUrls view'
        = filter (live tList) (filter (live tSweep) (storage w)) ++ [new]).
Proof.
  intros H new.
  rewrite (handleSubmit_returned url_parses BASE_URL randomIndex fuel
             tSweep tNow tCreated tList view w resp w1 H).
  eexists. eexists. split; [reflexivity|].
  cbn [UrlShortener.originalUrl UrlShortener.customShortcode
       UrlShortener.validityMinutes UrlShortener.isLoading
       UrlShortener.error UrlShortener.success UrlShortener.shortenedUrls
       storage].
  apply shortenUrl_returned in H. destruct H as (code & k & _ & Hf & H).
  unfold store in H. inversion H; subst; clear H.
  cbn [ShortenUrlResponse.shortUrl ShortenUrlResponse.shortcode storage]
    in *.
  repeat (split; [reflexivity|]). split.
  - intros m Hm. apply filter_In in Hm. now apply date_gt_not_le.
  - intros Hl. rewrite filter_app. cbn [filter]. subst new. now rewrite Hl.
Qed.

Lemma submit_shows_the_new_mapping_witness :
  exists view' w2,
    handleSubmit demo_parses demo_origin demo_random 1
      demo_now demo_now demo_now demo_now demo_view init = (Some view', w2)
    /\ UrlShortener.success view'
       = "URL shortened successfully! Short URL: http://localhost:3000/abcdef"%string
    /\ map shortcode (UrlShortener.shortenedUrls view') = ["abcdef"%string]
    /\ map expiresAt (UrlShortener.shortenedUrls view')
       = [IsoString (demo_now + 2700000)].
Proof.
  destruct (submit_shows_the_new_mapping demo_parses demo_origin demo_random 1
              demo_now demo_now demo_now demo_now demo_view init _ _ eq_refl)
    as (view' & w2 & E & _ & _ & _ & _ & _ & Hs & _ & _ & Hlist).
  exists view', w2. split; [exact E|]. split; [exact Hs|].
  rewrite Hlist; [split; reflexivity|reflexivity].
Defined.

(** X19: a submit whose create throws shows the message of the error,
    keeps what was typed and the list as they were, and ends loading;
    the store gains no record. With the custom-code field left empty
    the only error there can be is the one about the URL. *)
Theorem submit_failure_keeps_the_form
  url_parses BASE_URL randomIndex fuel tSweep tNow tCreated tList view w
  e w1 :
  shortenUrl url_parses BASE_URL randomIndex fuel tSweep tNow tCreated
    (formRequest view) w = (Thrown e, w1) ->
  handleSubmit url_parses BASE_URL randomIndex fuel
    tSweep tNow tCreated tList view w
  = (Some
       (UrlShortener.make
          (UrlShortener.originalUrl view) (UrlShortener.customShortcode view)
          (UrlShortener.validityMinutes view) false (message e) EmptyString
          (UrlShortener.shortenedUrls view)),
     w1)
  /\ message e <> EmptyString
  /\ (forall m, In m (storage w1) -> In m (storage w))
  /\ (UrlShortener.customShortcode view = EmptyString ->
      e = InvalidUrlError /\ w1 = w).
Proof.
  intros H. split; [unfold handleSubmit; now rewrite H|].
  split; [destruct e; discriminate|].
  unfold shortenUrl, isValidUrl, store in H.
  rewrite cleanExpiredMappings_filter in H.
  cbn [formRequest ShortenUrlRequest.originalUrl
       ShortenUrlRequest.customShortcode] in H.
  destruct (url_parses _); cbn [negb] in H.
  - destruct (UrlShortener.customShortcode view) as [|c s] eqn:C;
      cbn [truthy] in H.
    + destruct (generateFresh _ _ _ _) as [[code k]|]; discriminate.
    + split; [|discriminate].
      destruct (isValidShortcode _); cbn [negb] in H;
        [destruct (existsb _ _); [|discriminate]|];
        inversion H; subst; cbn [storage];
        intros m Hm; apply filter_In in Hm; tauto.
  - inversion H; subst. split; [auto|]. intros _. split; reflexivity.
Qed.

Lemma submit_failure_keeps_the_form_witness :
  handleSubmit demo_parses demo_origin demo_random 1
    demo_now demo_now demo_now demo_now
    (UrlShortener.make "not a url" EmptyString 45 false EmptyString
       EmptyString []) demo_world
  = (Some
       (UrlShortener.make "not a url" EmptyString 45 false
          "Invalid URL provided" EmptyString []),
     demo_world).
Proof.
  apply (submit_failure_keeps_the_form demo_parses demo_origin demo_random 1
           demo_now demo_now demo_now demo_now
           (UrlShortener.make "not a url" EmptyString 45 false EmptyString
              EmptyString []) demo_world InvalidUrlError demo_world eq_refl).
Defined.

(** X20: the delete button: afterwards the list shows exactly the records of
    the store that carry another shortcode and are live at the reload,
    in their order, and the store holds what the list shows; the
    fields of the form are untouched. *)
Theorem delete_button_reloads_the_list tList code view w :
  let r := handleDelete tList code view w in
  UrlShortener.shortenedUrls (fst r)
  = filter (fun m => negb (hasCode code m) && live tList m) (storage w)
  /\ storage (snd r) = UrlShortener.shortenedUrls (fst r)
  /\ (forall m, In m (UrlShortener.shortenedUrls (fst r))
                <-> In m (storage w) /\ shortcode m <> code
                    /\ live tList m = true)
  /\ UrlShortener.originalUrl (fst r) = UrlShortener.originalUrl view
  /\ UrlShortener.customShortcode (fst r) = UrlShortener.customShortcode view
  /\ UrlShortener.validityMinutes (fst r) = UrlShortener.validityMinutes view.
Proof.
  unfold handleDelete, loadExistingUrls, getAllMappings.
  cbn [fst snd storage UrlShortener.shortenedUrls UrlShortener.originalUrl
       UrlShortener.customShortcode UrlShortener.validityMinutes].
  rewrite cleanExpiredMappings_filter, deleteMappingByShortcode_storage,
    filter_filter_andb.
  split; [reflexivity|]. split; [reflexivity|].
  split; [|repeat split].
  intros m. rewrite filter_In, andb_true_iff, negb_true_iff, hasCode_false.
  tauto.
Qed.

Lemma delete_button_reloads_the_list_witness :
  map shortcode
    (UrlShortener.shortenedUrls
       (fst (handleDelete demo_now "xyz" demo_view demo_world)))
  = ["abc"%string]
  /\ In (demo_record "abc" (demo_now + 60000)) (storage demo_world).
Proof.
  destruct (delete_button_reloads_the_list demo_now "xyz" demo_view demo_world)
    as (Hlist & _ & Hiff & _).
  split.
  - rewrite Hlist. reflexivity.
  - assert (Hshown : In (demo_record "abc" (demo_now + 60000))
                       (UrlShortener.shortenedUrls
                          (fst (handleDelete demo_now "xyz" demo_view
                                  demo_world))))
      by (rewrite Hlist; left; reflexivity).
    exact (proj1 (proj1 (Hiff _) Hshown)).
Defined.

(** ** The expired branch of resolve *)

(** X15: resolve leaves through its expired branch only when the clock has
    moved on between the sweep and the check; the record it found was
    live at the sweep, is expired at the check, and is still in the
    store afterwards, with its count unchanged. *)
Theorem expired_branch_needs_a_later_check tSweep tCheck code w :
  fst (resolveShortcode tSweep tCheck code w) = Expired ->
  tSweep < tCheck
  /\ storage (snd (resolveShortcode tSweep tCheck code w))
     = filter (live tSweep) (storage w)
  /\ exists m,
       In m (storage (snd (resolveShortcode tSweep tCheck code w)))
       /\ In m (storage w)
       /\ shortcode m = code
       /\ live tSweep m = true
       /\ isExpired (expiresAt m) tCheck = true.
Proof.
  unfold resolveShortcode. rewrite cleanExpiredMappings_filter.
  destruct (find _ _) as [m|] eqn:F; cbn [fst]; [|discriminate].
  destruct (date_le _ _) eqn:E; cbn [fst snd storage]; [|discriminate].
  intros _. apply find_some in F. destruct F as [Hin Hc].
  pose proof Hin as Hin'. apply filter_In in Hin'. destruct Hin' as [Hw Hl].
  split; [|split; [reflexivity|]].
  - unfold live in Hl. destruct (parseDate (expiresAt m)) as [tv|];
      simpl in *; [|discriminate].
    apply Z.ltb_lt in Hl. apply Z.leb_le in E. lia.
  - exists m. repeat split; auto. now apply hasCode_true.
Qed.

Lemma expired_branch_needs_a_later_check_witness :
  demo_now + 59999 < demo_now + 60000
  /\ storage (snd (resolveShortcode (demo_now + 59999) (demo_now + 60000)
                     "xyz" demo_world))
     = filter (live (demo_now + 59999)) (storage demo_world).
Proof.
  destruct (expired_branch_needs_a_later_check (demo_now + 59999)
              (demo_now + 60000) "xyz" demo_world eq_refl)
    as (Hlt & Hstore & _).
  split; [exact Hlt|exact Hstore].
Defined.

End UrlService.
